(** * gwda: protocol transport and response decoding

    A shallow embedding of the decision logic of [gwda.go]: the
    identifier resolver ([elementIDFromValue]), the selector encoder
    ([BySelector.getUsingAndValue]), the element type rendering
    ([ElementType.String]), the response decoder ([rawResponse] and its
    [valueConvertTo...] methods) and the status rule of [executeHTTP].

    Go [string] is modelled by [string] (a sequence of 8-bit characters),
    Go [[]byte] by [list ascii], Go [map[string]string] by
    [gmap string string]. *)

From Stdlib Require Import NArith ZArith Lia Ascii String List.
From stdpp Require Import gmap strings list fin_maps.

Set Warnings "-register-all".
Open Scope string_scope.

(** ** Identifier resolver *)

Module Resolver.

(** [legacyWebElementIdentifier] and [webElementIdentifier]. *)
Definition legacyWebElementIdentifier : string := "ELEMENT".
Definition webElementIdentifier : string := "element-6066-11e4-a52e-4f735466cecf".

(** One iteration of the loop body: [if v, ok := val[key]; ok && v != ""]. *)
Definition nonEmptyAt (val : gmap string string) (key : string) : option string :=
  match val !! key with
  | Some v => if decide (v = "") then None else Some v
  | None => None
  end.

(** The [for _, key := range keys] loop with its early [return v]. *)
Fixpoint firstNonEmpty (val : gmap string string) (keys : list string) : string :=
  match keys with
  | [] => ""
  | key :: rest =>
      match nonEmptyAt val key with
      | Some v => v
      | None => firstNonEmpty val rest
      end
  end.

Definition elementIDFromValue (val : gmap string string) : string :=
  firstNonEmpty val [webElementIdentifier; legacyWebElementIdentifier].

End Resolver.

(** ** Element type flag set *)

Module ElementTypes.

(** [type ElementType struct], one [bool] per field, in declaration order. *)
Record ElementType : Type := mkElementType {
  Any : bool;
  Other : bool;
  Application : bool;
  Group : bool;
  Window : bool;
  Sheet : bool;
  Drawer : bool;
  Alert : bool;
  Dialog : bool;
  Button : bool;
  RadioButton : bool;
  RadioGroup : bool;
  CheckBox : bool;
  DisclosureTriangle : bool;
  PopUpButton : bool;
  ComboBox : bool;
  MenuButton : bool;
  ToolbarButton : bool;
  Popover : bool;
  Keyboard : bool;
  Key : bool;
  NavigationBar : bool;
  TabBar : bool;
  TabGroup : bool;
  Toolbar : bool;
  StatusBar : bool;
  Table : bool;
  TableRow : bool;
  TableColumn : bool;
  Outline : bool;
  OutlineRow : bool;
  Browser : bool;
  CollectionView : bool;
  Slider : bool;
  PageIndicator : bool;
  ProgressIndicator : bool;
  ActivityIndicator : bool;
  SegmentedControl : bool;
  Picker : bool;
  PickerWheel : bool;
  Switch : bool;
  Toggle : bool;
  Link : bool;
  Image : bool;
  Icon : bool;
  SearchField : bool;
  ScrollView : bool;
  ScrollBar : bool;
  StaticText : bool;
  TextField : bool;
  SecureTextField : bool;
  DatePicker : bool;
  TextView : bool;
  Menu : bool;
  MenuItem : bool;
  MenuBar : bool;
  MenuBarItem : bool;
  Map : bool;
  WebView : bool;
  IncrementArrow : bool;
  DecrementArrow : bool;
  Timeline : bool;
  RatingIndicator : bool;
  ValueIndicator : bool;
  SplitGroup : bool;
  Splitter : bool;
  RelevanceIndicator : bool;
  ColorWell : bool;
  HelpTag : bool;
  Matte : bool;
  DockItem : bool;
  Ruler : bool;
  RulerMarker : bool;
  Grid : bool;
  LevelIndicator : bool;
  Cell : bool;
  LayoutArea : bool;
  LayoutItem : bool;
  Handle : bool;
  Stepper : bool;
  Tab : bool;
  TouchBar : bool;
  StatusItem : bool
}.

(** What [reflect] sees of a struct field: the value of its [json] tag
    ([tBy.Field(i).Tag.Get("json")]) and the flag it holds
    ([vBy.Field(i).Bool()]); the list is in field order, so its index is
    the loop variable [i] and its length is [vBy.NumField()]. *)
Definition fields (et : ElementType) : list (string * bool) :=
  [ ("XCUIElementTypeAny", Any et);
    ("XCUIElementTypeOther", Other et);
    ("XCUIElementTypeApplication", Application et);
    ("XCUIElementTypeGroup", Group et);
    ("XCUIElementTypeWindow", Window et);
    ("XCUIElementTypeSheet", Sheet et);
    ("XCUIElementTypeDrawer", Drawer et);
    ("XCUIElementTypeAlert", Alert et);
    ("XCUIElementTypeDialog", Dialog et);
    ("XCUIElementTypeButton", Button et);
    ("XCUIElementTypeRadioButton", RadioButton et);
    ("XCUIElementTypeRadioGroup", RadioGroup et);
    ("XCUIElementTypeCheckBox", CheckBox et);
    ("XCUIElementTypeDisclosureTriangle", DisclosureTriangle et);
    ("XCUIElementTypePopUpButton", PopUpButton et);
    ("XCUIElementTypeComboBox", ComboBox et);
    ("XCUIElementTypeMenuButton", MenuButton et);
    ("XCUIElementTypeToolbarButton", ToolbarButton et);
    ("XCUIElementTypePopover", Popover et);
    ("XCUIElementTypeKeyboard", Keyboard et);
    ("XCUIElementTypeKey", Key et);
    ("XCUIElementTypeNavigationBar", NavigationBar et);
    ("XCUIElementTypeTabBar", TabBar et);
    ("XCUIElementTypeTabGroup", TabGroup et);
    ("XCUIElementTypeToolbar", Toolbar et);
    ("XCUIElementTypeStatusBar", StatusBar et);
    ("XCUIElementTypeTable", Table et);
    ("XCUIElementTypeTableRow", TableRow et);
    ("XCUIElementTypeTableColumn", TableColumn et);
    ("XCUIElementTypeOutline", Outline et);
    ("XCUIElementTypeOutlineRow", OutlineRow et);
    ("XCUIElementTypeBrowser", Browser et);
    ("XCUIElementTypeCollectionView", CollectionView et);
    ("XCUIElementTypeSlider", Slider et);
    ("XCUIElementTypePageIndicator", PageIndicator et);
    ("XCUIElementTypeProgressIndicator", ProgressIndicator et);
    ("XCUIElementTypeActivityIndicator", ActivityIndicator et);
    ("XCUIElementTypeSegmentedControl", SegmentedControl et);
    ("XCUIElementTypePicker", Picker et);
    ("XCUIElementTypePickerWheel", PickerWheel et);
    ("XCUIElementTypeSwitch", Switch et);
    ("XCUIElementTypeToggle", Toggle et);
    ("XCUIElementTypeLink", Link et);
    ("XCUIElementTypeImage", Image et);
    ("XCUIElementTypeIcon", Icon et);
    ("XCUIElementTypeSearchField", SearchField et);
    ("XCUIElementTypeScrollView", ScrollView et);
    ("XCUIElementTypeScrollBar", ScrollBar et);
    ("XCUIElementTypeStaticText", StaticText et);
    ("XCUIElementTypeTextField", TextField et);
    ("XCUIElementTypeSecureTextField", SecureTextField et);
    ("XCUIElementTypeDatePicker", DatePicker et);
    ("XCUIElementTypeTextView", TextView et);
    ("XCUIElementTypeMenu", Menu et);
    ("XCUIElementTypeMenuItem", MenuItem et);
    ("XCUIElementTypeMenuBar", MenuBar et);
    ("XCUIElementTypeMenuBarItem", MenuBarItem et);
    ("XCUIElementTypeMap", Map et);
    ("XCUIElementTypeWebView", WebView et);
    ("XCUIElementTypeIncrementArrow", IncrementArrow et);
    ("XCUIElementTypeDecrementArrow", DecrementArrow et);
    ("XCUIElementTypeTimeline", Timeline et);
    ("XCUIElementTypeRatingIndicator", RatingIndicator et);
    ("XCUIElementTypeValueIndicator", ValueIndicator et);
    ("XCUIElementTypeSplitGroup", SplitGroup et);
    ("XCUIElementTypeSplitter", Splitter et);
    ("XCUIElementTypeRelevanceIndicator", RelevanceIndicator et);
    ("XCUIElementTypeColorWell", ColorWell et);
    ("XCUIElementTypeHelpTag", HelpTag et);
    ("XCUIElementTypeMatte", Matte et);
    ("XCUIElementTypeDockItem", DockItem et);
    ("XCUIElementTypeRuler", Ruler et);
    ("XCUIElementTypeRulerMarker", RulerMarker et);
    ("XCUIElementTypeGrid", Grid et);
    ("XCUIElementTypeLevelIndicator", LevelIndicator et);
    ("XCUIElementTypeCell", Cell et);
    ("XCUIElementTypeLayoutArea", LayoutArea et);
    ("XCUIElementTypeLayoutItem", LayoutItem et);
    ("XCUIElementTypeHandle", Handle et);
    ("XCUIElementTypeStepper", Stepper et);
    ("XCUIElementTypeTab", Tab et);
    ("XCUIElementTypeTouchBar", TouchBar et);
    ("XCUIElementTypeStatusItem", StatusItem et) ].

(** The Go zero value: every flag false. *)
Definition zero : ElementType :=
  mkElementType false false false false false false false false false false false false
    false false false false false false false false false false false false
    false false false false false false false false false false false false
    false false false false false false false false false false false false
    false false false false false false false false false false false false
    false false false false false false false false false false false false
    false false false false false false false false false false false.

(** [ElementType{Button: true}]. *)
Definition onlyButton : ElementType :=
  mkElementType false false false false false false false false false true false false
    false false false false false false false false false false false false
    false false false false false false false false false false false false
    false false false false false false false false false false false false
    false false false false false false false false false false false false
    false false false false false false false false false false false false
    false false false false false false false false false false false.

(** The loop of [String]: return the tag of the first field that holds
    [true]; fall out of the loop with ["UNKNOWN"]. *)
Fixpoint firstTrue (fs : list (string * bool)) : string :=
  match fs with
  | [] => "UNKNOWN"
  | (tag, flag) :: rest => if flag then tag else firstTrue rest
  end.

(** [func (et ElementType) String() string]. *)
Definition ElementType_String (et : ElementType) : string :=
  firstTrue (fields et).

End ElementTypes.

(** ** Selector encoder *)

Module Selector.
Import ElementTypes.

(** A value stored in an [ElementAttribute] ([interface{}]), by the cases
    of the type switch in [ElementAttribute.String]: a [bool], a [string],
    and the [default] case.  Of the default case the source stores an
    [ElementType] ([WithType]), which [fmt] formats with its [String]
    method; any other value is represented by the text [%v] gives it. *)
Inductive attrValue : Type :=
| VBool (b : bool)
| VString (s : string)
| VElementType (et : ElementType)
| VOther (formatted : string).

(** [type ElementAttribute map[string]interface{}].  The only operation
    the encoder performs on it is a [range] loop left at its first
    iteration; Go leaves the iteration order of a map to the runtime, so
    the map is given by its entries in the order that loop visits them. *)
Definition ElementAttribute : Type := list (string * attrValue).

(** [strconv.FormatBool]. *)
Definition FormatBool (b : bool) : string := if b then "true" else "false".

Definition formatValue (v : attrValue) : string :=
  match v with
  | VBool b => FormatBool b
  | VString s => s
  | VElementType et => ElementType_String et
  | VOther formatted => formatted
  end.

(** [func (ea ElementAttribute) String() string]. *)
Definition ElementAttribute_String (ea : ElementAttribute) : string :=
  match ea with
  | (k, v) :: _ => k +:+ "=" +:+ formatValue v
  | [] => "UNKNOWN"
  end.

(** [type BySelector struct]. *)
Record BySelector : Type := mkBySelector {
  ClassName : ElementType;
  Name : string;
  Id : string;
  AccessibilityId : string;
  LinkText : ElementAttribute;
  PartialLinkText : ElementAttribute;
  Predicate : string;
  ClassChain : string;
  XPath : string
}.

(** The dynamic type of [vBy.Field(i).Interface()], as the type switch of
    [getUsingAndValue] distinguishes it. *)
Inductive fieldValue : Type :=
| FElementType (et : ElementType)
| FString (s : string)
| FElementAttribute (ea : ElementAttribute).

(** The struct as [reflect] enumerates it: [json] tag and value of each
    field, in declaration order. *)
Definition selectorFields (wl : BySelector) : list (string * fieldValue) :=
  [ ("class name", FElementType (ClassName wl));
    ("name", FString (Name wl));
    ("id", FString (Id wl));
    ("accessibility id", FString (AccessibilityId wl));
    ("link text", FElementAttribute (LinkText wl));
    ("partial link text", FElementAttribute (PartialLinkText wl));
    ("predicate string", FString (Predicate wl));
    ("class chain", FString (ClassChain wl));
    ("xpath", FString (XPath wl)) ].

(** The body of the type switch: the value assigned to [value]. *)
Definition rendered (vi : fieldValue) : string :=
  match vi with
  | FElementType et => ElementType_String et
  | FString s => s
  | FElementAttribute ea => ElementAttribute_String ea
  end.

(** [value != "" && value != "UNKNOWN"]. *)
Definition active (value : string) : bool :=
  negb (String.eqb value "") && negb (String.eqb value "UNKNOWN").

(** The loop of [getUsingAndValue].  [value] is the named result: it is
    assigned in every iteration and keeps its last assignment when the
    loop ends without a [return]; [using] is assigned only on the
    returning iteration. *)
Fixpoint scanFields (fs : list (string * fieldValue)) (value : string)
  : string * string :=
  match fs with
  | [] => ("", value)
  | (tag, vi) :: rest =>
      let value := rendered vi in
      if active value then (tag, value) else scanFields rest value
  end.

(** [func (wl BySelector) getUsingAndValue() (using, value string)]. *)
Definition getUsingAndValue (wl : BySelector) : string * string :=
  scanFields (selectorFields wl) "".

End Selector.

(** ** JSON texts, as [encoding/json] reads them

    [json.Unmarshal] first checks that the whole input is one valid JSON
    text ([checkValid]) and then stores the values it reads in the target.
    The first stage is modelled by a parser from bytes to a value tree; the
    second, per target type, by the [store...] functions of module
    [Decode]. *)

Module JSON.
#[local] Open Scope list_scope.

Inductive value : Type :=
| Null
| Bool (b : bool)
| Number (literal : string)
| Str (s : string)
| Array (elems : list value)
| Object (members : list (string * value)).

(** Outcome of reading a value from the front of the input: the value
    and the unread rest, a syntax error, or the recursion budget used up
    (which, by [scan_never_starved] below, does not happen at the budget
    [scan] gives). *)
Inductive result (A : Type) : Type :=
| Parsed (a : A) (rest : list ascii)
| Invalid
| Starved.
Arguments Parsed {A} a rest.
Arguments Invalid {A}.
Arguments Starved {A}.

Definition code (c : ascii) : N := N_of_ascii c.
Definition eqc (c : ascii) (x : ascii) : bool := Ascii.eqb c x.

(** The double quote (0x22), the escape characters and the white space of
    JSON. *)
Definition dquote : ascii := ascii_of_N 34.
Definition backspace : ascii := ascii_of_N 8.
Definition tab : ascii := ascii_of_N 9.
Definition newline : ascii := ascii_of_N 10.
Definition formfeed : ascii := ascii_of_N 12.
Definition creturn : ascii := ascii_of_N 13.

(** [isSpace] of [scanner.go]. *)
Definition isSpace (c : ascii) : bool :=
  eqc c " " || eqc c tab || eqc c creturn || eqc c newline.

Fixpoint skipSpace (s : list ascii) : list ascii :=
  match s with
  | c :: rest => if isSpace c then skipSpace rest else s
  | [] => []
  end.

Definition isDigit (c : ascii) : bool :=
  ((48 <=? code c) && (code c <=? 57))%N.

Fixpoint spanDigits (s : list ascii) : list ascii * list ascii :=
  match s with
  | c :: rest =>
      if isDigit c then let '(ds, r) := spanDigits rest in (c :: ds, r)
      else ([], s)
  | [] => ([], [])
  end.

(** The number grammar of the scanner ([state1], [state0], [stateDot],
    [stateE], ...): an optional minus sign; then a zero, or a digit from 1
    to 9 and any digits; then optionally a dot and one digit or more; then
    optionally [e] or [E], an optional sign and one digit or more.
    Returns the literal and the rest. *)
Definition scanInt (s : list ascii) : option (list ascii * list ascii) :=
  match s with
  | c :: rest =>
      if eqc c "0" then Some ([c], rest)
      else if isDigit c then
        let '(ds, r) := spanDigits rest in Some (c :: ds, r)
      else None
  | [] => None
  end.

Definition scanFrac (s : list ascii) : option (list ascii * list ascii) :=
  match s with
  | c :: rest =>
      if eqc c "." then
        match spanDigits rest with
        | ([], _) => None
        | (ds, r) => Some (c :: ds, r)
        end
      else Some ([], s)
  | [] => Some ([], [])
  end.

Definition scanExp (s : list ascii) : option (list ascii * list ascii) :=
  match s with
  | c :: rest =>
      if eqc c "e" || eqc c "E" then
        let '(sign, rest') :=
          match rest with
          | d :: r => if eqc d "+" || eqc d "-" then ([d], r) else ([], rest)
          | [] => ([], rest)
          end in
        match spanDigits rest' with
        | ([], _) => None
        | (ds, r) => Some (c :: sign ++ ds, r)
        end
      else Some ([], s)
  | [] => Some ([], [])
  end.

Definition scanNumber (s : list ascii) : option (list ascii * list ascii) :=
  let '(minus, s0) :=
    match s with
    | c :: rest => if eqc c "-" then ([c], rest) else ([], s)
    | [] => ([], s)
    end in
  match scanInt s0 with
  | None => None
  | Some (i, s1) =>
      match scanFrac s1 with
      | None => None
      | Some (f, s2) =>
          match scanExp s2 with
          | None => None
          | Some (e, s3) => Some (minus ++ i ++ f ++ e, s3)
          end
      end
  end.

(** [true], [false], [null]: the input must spell the word. *)
Fixpoint stripPrefix (word s : list ascii) : option (list ascii) :=
  match word, s with
  | [], _ => Some s
  | w :: word', c :: rest => if eqc w c then stripPrefix word' rest else None
  | _ :: _, [] => None
  end.

(** *** String literals ([unquote] of [decode.go]) *)

Definition hexVal (c : ascii) : option N :=
  let n := code c in
  if ((48 <=? n) && (n <=? 57))%N then Some (n - 48)%N
  else if ((97 <=? n) && (n <=? 102))%N then Some (n - 97 + 10)%N
  else if ((65 <=? n) && (n <=? 70))%N then Some (n - 65 + 10)%N
  else None.

(** [getu4], on the four characters after [\u]. *)
Definition getu4 (h1 h2 h3 h4 : ascii) : option N :=
  match hexVal h1, hexVal h2, hexVal h3, hexVal h4 with
  | Some a, Some b, Some c, Some d => Some (a * 4096 + b * 256 + c * 16 + d)%N
  | _, _, _, _ => None
  end.

(** [unicode.ReplacementChar], U+FFFD, in UTF-8. *)
Definition replacement : list ascii :=
  [ascii_of_N 0xEF; ascii_of_N 0xBF; ascii_of_N 0xBD].

(** [utf16.IsSurrogate] and [utf16.DecodeRune]. *)
Definition isSurrogate (r : N) : bool := ((0xD800 <=? r) && (r <? 0xE000))%N.

Definition decodeSurrogates (r1 r2 : N) : option N :=
  if ((0xD800 <=? r1) && (r1 <? 0xDC00) && (0xDC00 <=? r2) && (r2 <? 0xE000))%N
  then Some (N.lor (N.shiftl (r1 - 0xD800) 10) (r2 - 0xDC00) + 0x10000)%N
  else None.

(** [utf8.EncodeRune]. *)
Definition encodeRune (r : N) : list ascii :=
  let cont (x : N) := ascii_of_N (N.lor 0x80 (N.land x 0x3F)) in
  if (r <? 0x80)%N then [ascii_of_N r]
  else if (r <? 0x800)%N then
    [ascii_of_N (N.lor 0xC0 (N.shiftr r 6)); cont r]
  else if (isSurrogate r || (0x10FFFF <? r))%N then replacement
  else if (r <? 0x10000)%N then
    [ascii_of_N (N.lor 0xE0 (N.shiftr r 12)); cont (N.shiftr r 6); cont r]
  else
    [ascii_of_N (N.lor 0xF0 (N.shiftr r 18)); cont (N.shiftr r 12);
     cont (N.shiftr r 6); cont r].

(** The tables [first] and [acceptRanges] of [utf8]: for a leading byte,
    the length of the encoding and the range of its second byte. *)
Definition acceptRange (p0 : N) : option (nat * N * N) :=
  if (p0 <? 0xC2)%N then None
  else if (p0 <? 0xE0)%N then Some (2%nat, 0x80%N, 0xBF%N)
  else if (p0 =? 0xE0)%N then Some (3%nat, 0xA0%N, 0xBF%N)
  else if (p0 =? 0xED)%N then Some (3%nat, 0x80%N, 0x9F%N)
  else if (p0 <? 0xF0)%N then Some (3%nat, 0x80%N, 0xBF%N)
  else if (p0 =? 0xF0)%N then Some (4%nat, 0x90%N, 0xBF%N)
  else if (p0 <? 0xF4)%N then Some (4%nat, 0x80%N, 0xBF%N)
  else if (p0 =? 0xF4)%N then Some (4%nat, 0x80%N, 0x8F%N)
  else None.

Definition within (lo hi : N) (c : ascii) : bool :=
  ((lo <=? code c) && (code c <=? hi))%N.

(** The [size] result of [utf8.DecodeRune] on [p0 :: rest], for a leading
    byte [p0] that eqc not ASCII: 1 when the bytes are not a valid encoding. *)
Definition runeSize (p0 : ascii) (rest : list ascii) : nat :=
  match acceptRange (code p0) with
  | None => 1
  | Some (size, lo, hi) =>
      match size, rest with
      | 2, b1 :: _ => if within lo hi b1 then 2 else 1
      | 3, b1 :: b2 :: _ =>
          if within lo hi b1 && within 0x80 0xBF b2 then 3 else 1
      | 4, b1 :: b2 :: b3 :: _ =>
          if within lo hi b1 && within 0x80 0xBF b2 && within 0x80 0xBF b3
          then 4 else 1
      | _, _ => 1
      end
  end.

(** The character a one-letter escape stands for. *)
Definition unescape (e : ascii) : option ascii :=
  if eqc e dquote || eqc e "\" || eqc e "/" then Some e
  else if eqc e "b" then Some backspace
  else if eqc e "f" then Some formfeed
  else if eqc e "n" then Some newline
  else if eqc e "r" then Some creturn
  else if eqc e "t" then Some tab
  else None.

Definition emit (cs : list ascii) (r : option (list ascii * list ascii))
  : option (list ascii * list ascii) :=
  match r with
  | Some (s, rest) => Some (cs ++ s, rest)
  | None => None
  end.

(** The rune written for [\uXXXX] with value [rr] when [after] follows it,
    and whether the escape that follows was consumed as the low half of a
    surrogate pair. *)
Definition escapedRune (rr : N) (after : list ascii) : list ascii * bool :=
  if isSurrogate rr then
    match after with
    | b :: u :: g1 :: g2 :: g3 :: g4 :: _ =>
        if eqc b "\" && eqc u "u" then
          match getu4 g1 g2 g3 g4 with
          | Some rr1 =>
              match decodeSurrogates rr rr1 with
              | Some dec => (encodeRune dec, true)
              | None => (replacement, false)
              end
          | None => (replacement, false)
          end
        else (replacement, false)
    | _ => (replacement, false)
    end
  else (encodeRune rr, false).

(** A string literal, from after its opening quote: the text it denotes
    and the input after its closing quote.  A control character, an
    unknown escape or the end of the input make the literal invalid
    ([None]); bytes that are not valid UTF-8 are replaced by U+FFFD. *)
Fixpoint scanString (s : list ascii) : option (list ascii * list ascii) :=
  match s with
  | [] => None
  | c :: s1 =>
      if eqc c dquote then Some ([], s1)
      else if eqc c "\" then
        match s1 with
        | [] => None
        | e :: s2 =>
            if eqc e "u" then
              match s2 with
              | h1 :: h2 :: h3 :: h4 :: s6 =>
                  match getu4 h1 h2 h3 h4 with
                  | None => None
                  | Some rr =>
                      match escapedRune rr s6, s6 with
                      | (out, true), _ :: _ :: _ :: _ :: _ :: _ :: s12 =>
                          emit out (scanString s12)
                      | (out, _), _ => emit out (scanString s6)
                      end
                  end
              | _ => None
              end
            else
              match unescape e with
              | Some ch => emit [ch] (scanString s2)
              | None => None
              end
        end
      else if (code c <? 32)%N then None
      else if (code c <? 128)%N then emit [c] (scanString s1)
      else
        match runeSize c s1, s1 with
        | 2, b1 :: s2 => emit [c; b1] (scanString s2)
        | 3, b1 :: b2 :: s3 => emit [c; b1; b2] (scanString s3)
        | 4, b1 :: b2 :: b3 :: s4 => emit [c; b1; b2; b3] (scanString s4)
        | _, _ => emit replacement (scanString s1)
        end
  end.

(** *** Values *)

(** [maxNestingDepth] of [scanner.go]. *)
Definition maxNestingDepth : N := 10000.

Definition bind {A B : Type} (r : result A) (k : A -> list ascii -> result B)
  : result B :=
  match r with
  | Parsed a rest => k a rest
  | Invalid => Invalid
  | Starved => Starved
  end.

Definition str (cs : list ascii) : string := string_of_list_ascii cs.

Fixpoint parseValue (fuel : nat) (depth : N) (s : list ascii) {struct fuel}
  : result value :=
  match fuel with
  | O => Starved
  | S fuel' =>
      match skipSpace s with
      | [] => Invalid
      | c :: s1 =>
          if eqc c "{" then
            if (depth <? maxNestingDepth)%N then
              match skipSpace s1 with
              | c' :: s2 =>
                  if eqc c' "}" then Parsed (Object []) s2
                  else bind (parseMembers fuel' (depth + 1)%N s1)
                         (fun ms rest => Parsed (Object ms) rest)
              | [] => Invalid
              end
            else Invalid
          else if eqc c "[" then
            if (depth <? maxNestingDepth)%N then
              match skipSpace s1 with
              | c' :: s2 =>
                  if eqc c' "]" then Parsed (Array []) s2
                  else bind (parseElements fuel' (depth + 1)%N s1)
                         (fun vs rest => Parsed (Array vs) rest)
              | [] => Invalid
              end
            else Invalid
          else if eqc c dquote then
            match scanString s1 with
            | Some (cs, rest) => Parsed (Str (str cs)) rest
            | None => Invalid
            end
          else if eqc c "t" then
            match stripPrefix (list_ascii_of_string "rue") s1 with
            | Some rest => Parsed (Bool true) rest
            | None => Invalid
            end
          else if eqc c "f" then
            match stripPrefix (list_ascii_of_string "alse") s1 with
            | Some rest => Parsed (Bool false) rest
            | None => Invalid
            end
          else if eqc c "n" then
            match stripPrefix (list_ascii_of_string "ull") s1 with
            | Some rest => Parsed Null rest
            | None => Invalid
            end
          else
            match scanNumber (c :: s1) with
            | Some (lit, rest) => Parsed (Number (str lit)) rest
            | None => Invalid
            end
      end
  end

with parseElements (fuel : nat) (depth : N) (s : list ascii) {struct fuel}
  : result (list value) :=
  match fuel with
  | O => Starved
  | S fuel' =>
      bind (parseValue fuel' depth s) (fun v rest =>
        match skipSpace rest with
        | c :: r =>
            if eqc c "," then
              bind (parseElements fuel' depth r)
                (fun vs rest' => Parsed (v :: vs) rest')
            else if eqc c "]" then Parsed [v] r
            else Invalid
        | [] => Invalid
        end)
  end

with parseMembers (fuel : nat) (depth : N) (s : list ascii) {struct fuel}
  : result (list (string * value)) :=
  match fuel with
  | O => Starved
  | S fuel' =>
      match skipSpace s with
      | q :: s1 =>
          if eqc q dquote then
            match scanString s1 with
            | Some (key, rest) =>
                match skipSpace rest with
                | colon :: r =>
                    if eqc colon ":" then
                      bind (parseValue fuel' depth r) (fun v rest' =>
                        match skipSpace rest' with
                        | c :: r' =>
                            if eqc c "," then
                              bind (parseMembers fuel' depth r')
                                (fun ms rest'' =>
                                   Parsed ((str key, v) :: ms) rest'')
                            else if eqc c "}" then Parsed [(str key, v)] r'
                            else Invalid
                        | [] => Invalid
                        end)
                    else Invalid
                | [] => Invalid
                end
            | None => Invalid
            end
          else Invalid
      | [] => Invalid
      end
  end.

(** The whole input must be one value, white space around it allowed. *)
Definition scan (data : list ascii) : result value :=
  bind (parseValue (2 * length data + 1) 0 data) (fun v rest =>
    match skipSpace rest with
    | [] => Parsed v []
    | _ :: _ => Invalid
    end).

(** [checkValid] and the value it accepted; [None] eqc a [*SyntaxError]. *)
Definition parse (data : list ascii) : option value :=
  match scan data with
  | Parsed v _ => Some v
  | Invalid | Starved => None
  end.

(** Characters that stand for themselves in a string literal: ASCII,
    not a control character, not the quote and not the backslash. *)
Definition plainChar (c : ascii) : bool :=
  negb (eqc c dquote) && negb (eqc c "\") &&
  negb (code c <? 32)%N && (code c <? 128)%N.

(** Writing JSON texts legibly: [text s] is [s] with every apostrophe
    replaced by a double quote. *)
Definition text (s : string) : list ascii :=
  List.map (fun c => if eqc c "'" then dquote else c) (list_ascii_of_string s).

End JSON.

(** ** Errors *)

Module Errors.

(** The Go types the decoder stores into. *)
Inductive goType : Type :=
| TString
| TBool
| TMap            (* map[string]string *)
| TSlice          (* []map[string]string *)
| TStruct.

(** The [error] values of the package.  [errNoSuchElement] is the
    package variable of that name, told apart from every other error by
    identity.  [fmt.Errorf] errors carry their text, except that the two
    "invalid element returned: %+v" errors carry the decoded reply itself
    in place of its formatted text.  [TransportError] stands for the
    errors of [net/http] and [io]. *)
Inductive error : Type :=
| SyntaxError                                       (* *json.SyntaxError *)
| UnmarshalTypeError (Value : string) (Type_ : goType)
| CorruptInputError (offset : N)                    (* base64 *)
| errNoSuchElement
| Errorf (message : string)
| TransportError (reason : string)                  (* net/http, io *)
| InvalidElement (Value : gmap string string)
| InvalidElements (Value : list (gmap string string)).

End Errors.

(** ** Storing a JSON value in a Go value ([decode.go])

    Each [store...] function takes the current content of the target and
    the JSON value and returns the new content and the error this step
    saves; decoding goes on after a type error, and [Unmarshal] returns
    the first error saved. *)

Module Decode.
Import JSON Errors.
#[local] Open Scope list_scope.

(** [d.saveError]: only the first error is kept. *)
Definition saveError (saved next : option error) : option error :=
  match saved with
  | Some e => Some e
  | None => next
  end.

(** The [Value] text of an [UnmarshalTypeError]. *)
Definition describe (j : value) : string :=
  match j with
  | Null => "null"
  | Bool _ => "bool"
  | Number _ => "number"
  | Str _ => "string"
  | Array _ => "array"
  | Object _ => "object"
  end.

Definition mismatch {A : Type} (cur : A) (j : value) (t : goType)
  : A * option error :=
  (cur, Some (UnmarshalTypeError (describe j) t)).

(** Into a [string]: a JSON string is stored, [null] leaves the target
    as it is, anything else is a type error. *)
Definition storeString (cur : string) (j : value) : string * option error :=
  match j with
  | Str s => (s, None)
  | Null => (cur, None)
  | _ => mismatch cur j TString
  end.

(** Into a [bool]. *)
Definition storeBool (cur : bool) (j : value) : bool * option error :=
  match j with
  | Bool b => (b, None)
  | Null => (cur, None)
  | _ => mismatch cur j TBool
  end.

(** Into a [map[string]string]: every member is decoded into a fresh
    (empty) string and written under its key, also when its value was of
    the wrong type; a map already there is kept and added to; [null]
    makes the map nil.  A nil map and an empty map are both [∅]. *)
Fixpoint storeEntries (ms : list (string * value)) (cur : gmap string string)
  (saved : option error) : gmap string string * option error :=
  match ms with
  | [] => (cur, saved)
  | (k, v) :: rest =>
      let '(elem, e) := storeString "" v in
      storeEntries rest (<[k := elem]> cur) (saveError saved e)
  end.

Definition storeMap (cur : gmap string string) (j : value)
  : gmap string string * option error :=
  match j with
  | Object ms => storeEntries ms cur None
  | Null => (∅, None)
  | _ => mismatch cur j TMap
  end.

(** A [[]map[string]string]: its elements, and the elements that an
    earlier, longer content left in the backing array beyond its length. *)
Record slice : Type := mkSlice {
  items : list (gmap string string);
  spare : list (gmap string string)
}.

Definition nilSlice : slice := mkSlice [] [].

(** Into a slice ([d.array]): element [i] of the JSON array is decoded
    into element [i] of the backing array as it is found there (a map
    already there is added to), the slice growing as needed; at the end
    the length is the number of elements read, and an empty array gives a
    new empty slice. *)
Fixpoint storeElements (vs : list value) (backing : list (gmap string string))
  (saved : option error)
  : list (gmap string string) * list (gmap string string) * option error :=
  match vs with
  | [] => ([], backing, saved)
  | v :: vs' =>
      let '(m, e) := storeMap (List.hd ∅ backing) v in
      let '(ms, beyond, err) :=
        storeElements vs' (List.tl backing) (saveError saved e) in
      (m :: ms, beyond, err)
  end.

Definition storeSlice (cur : slice) (j : value) : slice * option error :=
  match j with
  | Array [] => (nilSlice, None)
  | Array vs =>
      let '(ms, beyond, err) :=
        storeElements vs (items cur ++ spare cur) None in
      (mkSlice ms beyond, err)
  | Null => (nilSlice, None)
  | _ => mismatch cur j TSlice
  end.

(** *** Struct fields *)

(** Case folding of an object key, as far as matching an ASCII field name
    goes ([foldName]): ASCII letters to upper case, and the two letters
    outside ASCII that fold to one, U+017F (long s) and U+212A (Kelvin
    sign). *)
Fixpoint foldBytes (s : list ascii) : list ascii :=
  match s with
  | [] => []
  | c :: rest =>
      if ((97 <=? code c) && (code c <=? 122))%N then
        ascii_of_N (code c - 32) :: foldBytes rest
      else
        match rest with
        | b1 :: rest1 =>
            if ((code c =? 0xC5) && (code b1 =? 0xBF))%N then
              "S"%char :: foldBytes rest1
            else
              match rest1 with
              | b2 :: rest2 =>
                  if ((code c =? 0xE2) && (code b1 =? 0x84) && (code b2 =? 0xAA))%N
                  then "K"%char :: foldBytes rest2
                  else c :: foldBytes rest
              | [] => c :: foldBytes rest
              end
        | [] => [c]
        end
  end.

Definition foldName (s : string) : string :=
  string_of_list_ascii (foldBytes (list_ascii_of_string s)).

(** A field of a struct of type [R]: its JSON name (the [json] tag, or
    the Go name) and how a value is stored in it. *)
Definition field (R : Type) : Type :=
  (string * (R -> value -> R * option error))%type.

(** The field a key selects: the one whose name is the key, else the
    first one whose name equals the key up to case. *)
Definition findField {R : Type} (fs : list (field R)) (key : string)
  : option (field R) :=
  match List.find (fun f => String.eqb (fst f) key) fs with
  | Some f => Some f
  | None =>
      List.find (fun f => String.eqb (foldName (fst f)) (foldName key)) fs
  end.

(** The members of an object, in order; members that select no field are
    skipped. *)
Fixpoint storeMembers {R : Type} (fs : list (field R))
  (ms : list (string * value)) (cur : R) (saved : option error)
  : R * option error :=
  match ms with
  | [] => (cur, saved)
  | (k, v) :: rest =>
      match findField fs k with
      | Some (_, store) =>
          let '(cur', e) := store cur v in
          storeMembers fs rest cur' (saveError saved e)
      | None => storeMembers fs rest cur saved
      end
  end.

(** Into a struct ([d.object]). *)
Definition storeStruct {R : Type} (fs : list (field R)) (cur : R) (j : value)
  : R * option error :=
  match j with
  | Object ms => storeMembers fs ms cur None
  | Null => (cur, None)
  | _ => mismatch cur j TStruct
  end.

(** [struct{ Value A }], the shape of every reply. *)
Record reply (A : Type) : Type := mkReply { Value : A }.
Arguments mkReply {A} Value.
Arguments Value {A} r.

Definition valueField {A : Type} (store : A -> value -> A * option error)
  : list (field (reply A)) :=
  [("Value", fun cur j => let '(v, e) := store (Value cur) j in (mkReply v, e))].

(** [json.Unmarshal(data, reply)]: a syntax error leaves the target
    untouched. *)
Definition Unmarshal {R : Type} (store : R -> value -> R * option error)
  (data : list ascii) (reply : R) : R * option error :=
  match parse data with
  | None => (reply, Some SyntaxError)
  | Some j => store reply j
  end.

End Decode.

(** ** Regular expressions ([regexp])

    The package compiles one pattern, [{.+?=(.+?)}].  Its syntax tree is
    given directly; matching follows the rule of the [regexp] package:
    the match that begins leftmost in the input and, among those, the one
    a backtracking search finds first.  The pattern's delimiters are
    ASCII, so matching byte by byte finds the same matches as matching
    rune by rune. *)

Module Regexp.
#[local] Open Scope list_scope.

Inductive regex : Type :=
| Lit (c : ascii)                   (* a literal character *)
| AnyCharNotNL                      (* [.] *)
| Cat (r1 r2 : regex)               (* concatenation *)
| PlusLazy (r : regex)              (* [r+?] *)
| Capture (index : nat) (r : regex) (* a parenthesised group *).

Definition newline : ascii := ascii_of_N 10.

(** Number of groups. *)
Fixpoint NumSubexp (r : regex) : nat :=
  match r with
  | Lit _ | AnyCharNotNL => 0
  | Cat r1 r2 => NumSubexp r1 + NumSubexp r2
  | PlusLazy r1 => NumSubexp r1
  | Capture _ r1 => S (NumSubexp r1)
  end.

(** Text captured by the groups, latest first. *)
Definition captures : Type := list (nat * list ascii).

(** Backtracking matcher in continuation-passing style: [run r s cs k]
    matches [r] at the start of [s] and hands the rest of the input to
    [k]; [None] makes it try its next alternative.  [r+?] matches [r] once
    and then prefers to stop; the loop budget, one more than the length
    of the input, is never used up by a body that consumes input. *)
Fixpoint run {X : Type} (r : regex) (s : list ascii) (cs : captures)
  (k : list ascii -> captures -> option X) : option X :=
  match r with
  | Lit c =>
      match s with
      | c' :: s' => if Ascii.eqb c c' then k s' cs else None
      | [] => None
      end
  | AnyCharNotNL =>
      match s with
      | c' :: s' => if Ascii.eqb c' newline then None else k s' cs
      | [] => None
      end
  | Cat r1 r2 => run r1 s cs (fun s1 cs1 => run r2 s1 cs1 k)
  | PlusLazy r1 =>
      (fix loop (n : nat) (s : list ascii) (cs : captures) : option X :=
         match n with
         | O => None
         | S n' =>
             run r1 s cs (fun s1 cs1 =>
               match k s1 cs1 with
               | Some x => Some x
               | None => loop n' s1 cs1
               end)
         end) (S (length s)) s cs
  | Capture i r1 =>
      run r1 s cs (fun s1 cs1 =>
        k s1 ((i, firstn (length s - length s1) s) :: cs1))
  end.

(** A match: its text, its groups, and the input after it. *)
Record found : Type := mkFound {
  whole : list ascii;
  groups : captures;
  after : list ascii
}.

(** The match that starts at the beginning of [s]. *)
Definition matchHere (r : regex) (s : list ascii) : option found :=
  run r s [] (fun s1 cs =>
    Some (mkFound (firstn (length s - length s1) s) cs s1)).

(** The leftmost match in [s]. *)
Fixpoint search (r : regex) (s : list ascii) : option found :=
  match matchHere r s with
  | Some m => Some m
  | None =>
      match s with
      | _ :: s' => search r s'
      | [] => None
      end
  end.

(** The text of group [i]; the empty string when it took no part. *)
Definition group (cs : captures) (i : nat) : string :=
  match List.find (fun g => Nat.eqb (fst g) i) cs with
  | Some (_, txt) => string_of_list_ascii txt
  | None => ""
  end.

(** The slice [FindStringSubmatch] returns for a match: the text of the
    match, then the text of each group. *)
Definition submatches (r : regex) (m : found) : list string :=
  string_of_list_ascii (whole m)
    :: List.map (group (groups m)) (seq 1 (NumSubexp r)).

(** [re.MatchString(s)]. *)
Definition MatchString (r : regex) (s : string) : bool :=
  match search r (list_ascii_of_string s) with
  | Some _ => true
  | None => false
  end.

(** [re.FindStringSubmatch(s)]: [nil] when there is no match. *)
Definition FindStringSubmatch (r : regex) (s : string) : list string :=
  match search r (list_ascii_of_string s) with
  | Some m => submatches r m
  | None => []
  end.

(** [re.FindAllStringSubmatch(s, -1)]: the successive matches, each
    searched from the end of the one before (for a pattern that matches
    no empty text). *)
Fixpoint searchAll (fuel : nat) (r : regex) (s : list ascii)
  : list (list string) :=
  match fuel with
  | O => []
  | S fuel' =>
      match search r s with
      | Some m => submatches r m :: searchAll fuel' r (after m)
      | None => []
      end
  end.

Definition FindAllStringSubmatch (r : regex) (s : string) : list (list string) :=
  let cs := list_ascii_of_string s in searchAll (S (length cs)) r cs.

End Regexp.

(** ** Base64 ([encoding/base64], [StdEncoding]) *)

Module Base64.
Import Errors.
#[local] Open Scope list_scope.
#[local] Open Scope N_scope.

(** [encodeStd], the alphabet. *)
Definition encodeStd : list ascii :=
  list_ascii_of_string
    "ABCDEFGHIJKLMNOPQRSTUVWXYZabcdefghijklmnopqrstuvwxyz0123456789+/".

Definition padChar : ascii := "="%char.

Definition byteOf (c : ascii) : N := N_of_ascii c.

(** [enc.encode[v]]. *)
Definition encode (v : N) : ascii := nth (N.to_nat v) encodeStd "A"%char.

(** [enc.decodeMap[c]]: the index of [c] in the alphabet, 0xFF for a
    character outside it. *)
Fixpoint indexOf (c : ascii) (l : list ascii) (i : N) : N :=
  match l with
  | [] => 0xFF
  | x :: rest => if Ascii.eqb x c then i else indexOf c rest (i + 1)
  end.

Definition decodeMap (c : ascii) : N := indexOf c encodeStd 0.

(** [enc.Encode], as [EncodeToString] returns it. *)
Fixpoint EncodeToString (src : list ascii) : list ascii :=
  match src with
  | [] => []
  | [b0] =>
      let val := N.shiftl (byteOf b0) 16 in
      [encode (N.land (N.shiftr val 18) 0x3F);
       encode (N.land (N.shiftr val 12) 0x3F); padChar; padChar]
  | [b0; b1] =>
      let val := N.lor (N.shiftl (byteOf b0) 16) (N.shiftl (byteOf b1) 8) in
      [encode (N.land (N.shiftr val 18) 0x3F);
       encode (N.land (N.shiftr val 12) 0x3F);
       encode (N.land (N.shiftr val 6) 0x3F); padChar]
  | b0 :: b1 :: b2 :: rest =>
      let val :=
        N.lor (N.lor (N.shiftl (byteOf b0) 16) (N.shiftl (byteOf b1) 8))
          (byteOf b2) in
      encode (N.land (N.shiftr val 18) 0x3F)
        :: encode (N.land (N.shiftr val 12) 0x3F)
        :: encode (N.land (N.shiftr val 6) 0x3F)
        :: encode (N.land val 0x3F)
        :: EncodeToString rest
  end.

(** The conversion [byte(x)] of an unsigned integer: its low eight bits. *)
Definition byte (x : N) : ascii := ascii_of_N (x mod 256).

(** The end of [decodeQuantum]: the four 6-bit values of [dbuf] (missing
    ones are zero) are packed into 24 bits and the first [dlen - 1] bytes
    of it are written. *)
Definition quantumBytes (dbuf : list N) : list ascii :=
  let d (i : nat) := nth i dbuf 0 in
  let val :=
    N.lor (N.lor (N.lor (N.shiftl (d 0%nat) 18) (N.shiftl (d 1%nat) 12))
             (N.shiftl (d 2%nat) 6)) (d 3%nat) in
  firstn (length dbuf - 1)
    [byte (N.shiftr val 16); byte (N.shiftr val 8); byte val].

Definition isNewline (c : ascii) : bool :=
  Ascii.eqb c (ascii_of_N 10) || Ascii.eqb c (ascii_of_N 13).

(** [for si < len(src) && (src[si] == '\n' || src[si] == '\r') { si++ }]. *)
Fixpoint skipNewlines (s : list ascii) (si : N) : list ascii * N :=
  match s with
  | c :: rest => if isNewline c then skipNewlines rest (si + 1) else (s, si)
  | [] => ([], si)
  end.

Definition emit (out : list ascii) (r : list ascii * option error)
  : list ascii * option error :=
  (out ++ fst r, snd r).

(** After the padding of a quantum of [j] characters: new lines may
    follow, anything else is trailing garbage; the quantum's bytes are
    written either way. *)
Definition afterPadding (dbuf : list N) (s : list ascii) (si : N)
  : list ascii * option error :=
  match skipNewlines s si with
  | ([], _) => (quantumBytes dbuf, None)
  | (_ :: _, si') => (quantumBytes dbuf, Some (CorruptInputError si'))
  end.

(** [enc.Decode], by its loop over [decodeQuantum]: [s] is the input from
    index [si] on and [dbuf] holds the characters of the current quantum
    read so far.  (The loops of [Decode] that take eight or four
    characters at a time give what [decodeQuantum] gives and fall back to
    it when a character is outside the alphabet.)  The bytes decoded
    before an error are returned with it. *)
Fixpoint decodeFrom (s : list ascii) (si : N) (dbuf : list N)
  : list ascii * option error :=
  match s with
  | [] =>
      match dbuf with
      | [] => ([], None)
      | _ :: _ => ([], Some (CorruptInputError (si - N.of_nat (length dbuf))))
      end
  | c :: rest =>
      let out := decodeMap c in
      if negb (out =? 0xFF) then
        let dbuf' := dbuf ++ [out] in
        if (length dbuf' =? 4)%nat
        then emit (quantumBytes dbuf') (decodeFrom rest (si + 1) [])
        else decodeFrom rest (si + 1) dbuf'
      else if isNewline c then decodeFrom rest (si + 1) dbuf
      else if negb (Ascii.eqb c padChar) then
        ([], Some (CorruptInputError si))
      else
        match length dbuf with
        | 0%nat | 1%nat => ([], Some (CorruptInputError si))
        | 2%nat =>
            match skipNewlines rest (si + 1) with
            | ([], si') => ([], Some (CorruptInputError si'))
            | (c' :: rest', si') =>
                if Ascii.eqb c' padChar then afterPadding dbuf rest' (si' + 1)
                else ([], Some (CorruptInputError (si' - 1)))
            end
        | _ => afterPadding dbuf rest (si + 1)
        end
  end.

(** [enc.DecodeString(s)]. *)
Definition DecodeString (s : string) : list ascii * option error :=
  decodeFrom (list_ascii_of_string s) 0 [].

End Base64.

(** ** Response decoder *)

Module Response.
Import JSON Errors Decode Regexp Resolver.
#[local] Open Scope list_scope.

(** [type rawResponse []byte]. *)
Definition rawResponse : Type := list ascii.

(** The inner struct of the reply of [checkErr]. *)
Record errorValue : Type := mkErrorValue {
  Err : string;          (* json:"error" *)
  Message : string;      (* json:"message" *)
  Traceback : string     (* json:"traceback" *)
}.

Definition errorFields : list (field errorValue) :=
  [ ("error", fun cur j =>
       let '(s, e) := storeString (Err cur) j in
       (mkErrorValue s (Message cur) (Traceback cur), e));
    ("message", fun cur j =>
       let '(s, e) := storeString (Message cur) j in
       (mkErrorValue (Err cur) s (Traceback cur), e));
    ("traceback", fun cur j =>
       let '(s, e) := storeString (Traceback cur) j in
       (mkErrorValue (Err cur) (Message cur) s, e)) ].

(** [regexp.MustCompile] of the pattern [{.+?=(.+?)}]. *)
Definition re : regex :=
  Cat (Lit "{")
    (Cat (PlusLazy AnyCharNotNL)
       (Cat (Lit "=")
          (Cat (Capture 1 (PlusLazy AnyCharNotNL)) (Lit "}")))).

(** The text [checkErr] reports: [subMatch[len(subMatch)-1]] when the
    pattern matches the message, the message otherwise. *)
Definition errText (Message : string) : string :=
  if MatchString re Message then
    let subMatch := FindStringSubmatch re Message in
    nth (length subMatch - 1) subMatch ""
  else Message.

(** [json.Unmarshal(r, reply)] in [checkErr], [reply] being new. *)
Definition decodeErrorReply (r : rawResponse)
  : reply errorValue * option error :=
  Unmarshal (storeStruct (valueField (storeStruct errorFields))) r
    (mkReply (mkErrorValue "" "" "")).

(** [func (r rawResponse) checkErr() (err error)]. *)
Definition checkErr (r : rawResponse) : option error :=
  let '(reply, err) := decodeErrorReply r in
  match err with
  | Some e => Some e
  | None =>
      if negb (String.eqb (Err (Value reply)) "") then
        Some (Errorf (Err (Value reply) +:+ ": " +:+ errText (Message (Value reply))))
      else None
  end.

(** [func (r rawResponse) valueConvertToString() (s string, err error)]. *)
Definition valueConvertToString (r : rawResponse) : string * option error :=
  let '(reply, err) :=
    Unmarshal (storeStruct (valueField storeString)) r (mkReply "") in
  match err with
  | Some e => ("", Some e)
  | None => (Value reply, None)
  end.

(** [func (r rawResponse) valueConvertToBool() (b bool, err error)]. *)
Definition valueConvertToBool (r : rawResponse) : bool * option error :=
  let '(reply, err) :=
    Unmarshal (storeStruct (valueField storeBool)) r (mkReply false) in
  match err with
  | Some e => (false, Some e)
  | None => (Value reply, None)
  end.

(** [func (r rawResponse) valueDecodeAsBase64() (raw *bytes.Buffer, err error)];
    the buffer is given by its content, [None] is the nil pointer. *)
Definition valueDecodeAsBase64 (r : rawResponse)
  : option (list ascii) * option error :=
  match valueConvertToString r with
  | (_, Some e) => (None, Some e)
  | (str, None) =>
      match Base64.DecodeString str with
      | (_, Some e) => (None, Some e)
      | (decodeString, None) => (Some decodeString, None)
      end
  end.

(** [func (r rawResponse) valueConvertToElementID() (id string, err error)]. *)
Definition valueConvertToElementID (r : rawResponse) : string * option error :=
  let '(reply, err) :=
    Unmarshal (storeStruct (valueField storeMap)) r (mkReply ∅) in
  match err with
  | Some e => ("", Some e)
  | None =>
      if Nat.eqb (size (Value reply)) 0 then ("", Some errNoSuchElement)
      else
        let id := elementIDFromValue (Value reply) in
        if String.eqb id "" then ("", Some (InvalidElement (Value reply)))
        else (id, None)
  end.

(** The loop of [valueConvertToElementIDs]: [IDs[i] = id] for each
    element in turn, left with an error at the first element without an
    identifier. *)
Fixpoint fillIDs (reply : list (gmap string string))
  (elems : list (gmap string string)) (i : nat) (IDs : list string)
  : list string * option error :=
  match elems with
  | [] => (IDs, None)
  | elem :: rest =>
      let id := elementIDFromValue elem in
      if String.eqb id "" then ([], Some (InvalidElements reply))
      else fillIDs reply rest (S i) (<[i := id]> IDs)
  end.

(** [func (r rawResponse) valueConvertToElementIDs() (IDs []string, err error)];
    the nil slice is the empty list. *)
Definition valueConvertToElementIDs (r : rawResponse)
  : list string * option error :=
  let '(reply, err) :=
    Unmarshal (storeStruct (valueField storeSlice)) r (mkReply nilSlice) in
  match err with
  | Some e => ([], Some e)
  | None =>
      let Value := items (Value reply) in
      if Nat.eqb (length Value) 0 then ([], Some errNoSuchElement)
      else fillIDs Value Value 0 (replicate (length Value) "")
  end.

End Response.

(** ** Transport executor *)

Module Transport.
Import Errors Response.

(** [http.StatusOK]. *)
Definition StatusOK : Z := 200.

(** What the outside world does with one call of [executeHTTP], by the
    steps of the function that depend on it: building the request, the
    round trip, and reading the body. *)
Inductive exchange : Type :=
| NewRequestFails (e : error)
| DoFails (e : error)
| ReadAllFails (StatusCode : Z) (e : error)
| Received (StatusCode : Z) (body : rawResponse).

(** [func executeHTTP(...) (rawResp rawResponse, err error)], as a
    function of the exchange; [None] is the nil [rawResponse].  The lock
    taken for a substitute client and the debug log leave the results as
    they are. *)
Definition executeHTTP (x : exchange) : option rawResponse * option error :=
  match x with
  | NewRequestFails e => (None, Some e)
  | DoFails e => (None, Some e)
  | ReadAllFails _ e => (None, Some e)
  | Received StatusCode rawResp =>
      match checkErr rawResp with
      | Some err =>
          if (StatusCode =? StatusOK)%Z then (Some rawResp, None)
          else (None, Some err)
      | None => (Some rawResp, None)
      end
  end.

End Transport.

(** ** Go maps and the option builders

    A Go map is nil or a table.  Reading a nil map finds nothing; writing
    to it panics ("assignment to entry in nil map").  The builder methods
    write to their receiver and return it. *)

Module GoMap.

Definition gomap (V : Type) : Type := option (gmap string V).

(** What a call does: return a value, or panic. *)
Inductive outcome (A : Type) : Type :=
| Returns (a : A)
| Panics.
Arguments Returns {A} a.
Arguments Panics {A}.

Definition andThen {A B : Type} (o : outcome A) (f : A -> outcome B) : outcome B :=
  match o with
  | Returns a => f a
  | Panics => Panics
  end.

(** [make(map[string]V)]. *)
Definition make {V : Type} : gomap V := Some ∅.

(** [v, ok := m[k]]. *)
Definition index {V : Type} (m : gomap V) (k : string) : option V :=
  match m with
  | Some t => t !! k
  | None => None
  end.

(** [m[k] = v]. *)
Definition assign {V : Type} (m : gomap V) (k : string) (v : V)
  : outcome (gomap V) :=
  match m with
  | Some t => Returns (Some (<[k := v]> t))
  | None => Panics
  end.

(** The entries of a map; a nil map has none. *)
Definition entries {V : Type} (m : gomap V) : list (string * V) :=
  match m with
  | Some t => map_to_list t
  | None => []
  end.

(** A [range] loop visits every entry of the map once, in an order the
    runtime chooses: [visited] is such an order. *)
Definition rangeOf {V : Type} (m : gomap V) (visited : list (string * V)) : Prop :=
  Permutation visited (entries m).

(** [for k, v := range src { dst[k] = v }], by the entries visited. *)
Fixpoint assignAll {V : Type} (dst : gomap V) (visited : list (string * V))
  : outcome (gomap V) :=
  match visited with
  | [] => Returns dst
  | (k, v) :: rest => andThen (assign dst k v) (fun dst' => assignAll dst' rest)
  end.

End GoMap.

Module Options.
Import GoMap.

(** The values the builders store in a [map[string]interface{}], by
    their dynamic type.  ([WithWaitForIdleTimeout] and
    [WithEventloopIdleDelaySec], which store a [float64], are left out.) *)
Inductive goValue : Type :=
| GBool (b : bool)
| GInt (n : Z)
| GString (s : string)
| GAlertAction (a : string)               (* type AlertAction string *)
| GStrings (l : list string)              (* []string *)
| GStringMap (m : gmap string string)     (* map[string]string *).

Definition AlertActionAccept : string := "accept".
Definition AlertActionDismiss : string := "dismiss".

(** [type Capabilities map[string]interface{}], [type AppLaunchOption
    map[string]interface{}], [type SourceOption map[string]interface{}]. *)
Definition Capabilities : Type := gomap goValue.
Definition AppLaunchOption : Type := gomap goValue.
Definition SourceOption : Type := gomap goValue.

Definition NewCapabilities : Capabilities := make.
Definition NewAppLaunchOption : AppLaunchOption := make.
Definition NewSourceOption : SourceOption := make.

(** [func (caps Capabilities) WithAppLaunchOption(launchOpt AppLaunchOption)],
    [visited] being the entries of [launchOpt] in the order the loop
    visits them. *)
Definition WithAppLaunchOption (caps : Capabilities)
  (visited : list (string * goValue)) : outcome Capabilities :=
  assignAll caps visited.

Definition WithDefaultAlertAction (caps : Capabilities) (alertAction : string)
  : outcome Capabilities :=
  assign caps "defaultAlertAction" (GAlertAction alertAction).

(** [if n <= 0 { n = 60 }]. *)
Definition WithMaxTypingFrequency (caps : Capabilities) (n : Z)
  : outcome Capabilities :=
  let n := if (n <=? 0)%Z then 60%Z else n in
  assign caps "maxTypingFrequency" (GInt n).

Definition WithShouldUseTestManagerForVisibilityDetection (caps : Capabilities)
  (b : bool) : outcome Capabilities :=
  assign caps "shouldUseTestManagerForVisibilityDetection" (GBool b).

Definition WithShouldUseCompactResponses (caps : Capabilities) (b : bool)
  : outcome Capabilities :=
  assign caps "shouldUseCompactResponses" (GBool b).

Definition WithElementResponseAttributes (caps : Capabilities) (s : string)
  : outcome Capabilities :=
  assign caps "elementResponseAttributes" (GString s).

Definition WithShouldUseSingletonTestManager (caps : Capabilities) (b : bool)
  : outcome Capabilities :=
  assign caps "shouldUseSingletonTestManager" (GBool b).

Definition WithDisableAutomaticScreenshots (caps : Capabilities) (b : bool)
  : outcome Capabilities :=
  assign caps "disableAutomaticScreenshots" (GBool b).

Definition WithShouldTerminateApp (caps : Capabilities) (b : bool)
  : outcome Capabilities :=
  assign caps "shouldTerminateApp" (GBool b).

Definition WithBundleId (opt : AppLaunchOption) (bundleId : string)
  : outcome AppLaunchOption :=
  assign opt "bundleId" (GString bundleId).

Definition WithShouldWaitForQuiescence (opt : AppLaunchOption) (b : bool)
  : outcome AppLaunchOption :=
  assign opt "shouldWaitForQuiescence" (GBool b).

Definition WithArguments (opt : AppLaunchOption) (args : list string)
  : outcome AppLaunchOption :=
  assign opt "arguments" (GStrings args).

Definition WithEnvironment (opt : AppLaunchOption) (env : gmap string string)
  : outcome AppLaunchOption :=
  assign opt "environment" (GStringMap env).

Definition WithFormatAsJson (opt : SourceOption) : outcome SourceOption :=
  assign opt "format" (GString "json").

Definition WithFormatAsXml (opt : SourceOption) : outcome SourceOption :=
  assign opt "format" (GString "xml").

Definition WithFormatAsDescription (opt : SourceOption) : outcome SourceOption :=
  assign opt "format" (GString "description").

(** [strings.Join(elems, sep)]. *)
Fixpoint Join (elems : list string) (sep : string) : string :=
  match elems with
  | [] => ""
  | [a] => a
  | a :: rest => a +:+ sep +:+ Join rest sep
  end.

(** [vFormat != "xml"], on an [interface{}]: equal only to the [string]
    with that text. *)
Definition notXml (vFormat : goValue) : bool :=
  match vFormat with
  | GString s => negb (String.eqb s "xml")
  | _ => true
  end.

(** [func (opt SourceOption) WithExcludedAttributes(attributes []string)]. *)
Definition WithExcludedAttributes (opt : SourceOption) (attributes : list string)
  : outcome SourceOption :=
  match index opt "format" with
  | Some vFormat =>
      if notXml vFormat then Returns opt
      else assign opt "excluded_attributes" (GString (Join attributes ","))
  | None => assign opt "excluded_attributes" (GString (Join attributes ","))
  end.

End Options.

(** ** Element attributes as maps, and their builders *)

Module Attributes.
Import GoMap ElementTypes Selector.

(** [type ElementAttribute map[string]interface{}], as the builders see
    it; [Selector.ElementAttribute] is such a map by the order in which a
    [range] loop visits its entries. *)
Definition attributeMap : Type := gomap attrValue.

Definition NewElementAttribute : attributeMap := make.

Definition WithUID (ea : attributeMap) (uid : string) : outcome attributeMap :=
  assign ea "UID" (VString uid).

Definition WithAccessibilityContainer (ea : attributeMap) (b : bool)
  : outcome attributeMap :=
  assign ea "accessibilityContainer" (VBool b).

Definition WithAccessible (ea : attributeMap) (b : bool) : outcome attributeMap :=
  assign ea "accessible" (VBool b).

Definition WithEnabled (ea : attributeMap) (b : bool) : outcome attributeMap :=
  assign ea "enabled" (VBool b).

Definition WithLabel (ea : attributeMap) (s : string) : outcome attributeMap :=
  assign ea "label" (VString s).

Definition WithName (ea : attributeMap) (s : string) : outcome attributeMap :=
  assign ea "name" (VString s).

Definition WithSelected (ea : attributeMap) (b : bool) : outcome attributeMap :=
  assign ea "selected" (VBool b).

Definition WithType (ea : attributeMap) (elemType : ElementType)
  : outcome attributeMap :=
  assign ea "type" (VElementType elemType).

Definition WithValue (ea : attributeMap) (s : string) : outcome attributeMap :=
  assign ea "value" (VString s).

Definition WithVisible (ea : attributeMap) (b : bool) : outcome attributeMap :=
  assign ea "visible" (VBool b).

(** [func (ea ElementAttribute) getAttributeName() string], by the entries
    in the order its loop visits them. *)
Definition getAttributeName (visited : ElementAttribute) : string :=
  match visited with
  | (k, _) :: _ => k
  | [] => "UNKNOWN"
  end.

End Attributes.

(** ** Battery and application states *)

Module States.

(** [type BatteryState int]; the constants count from 1 ([iota] after a
    blank first line). *)
Definition BatteryStateUnplugged : Z := 1.
Definition BatteryStateCharging : Z := 2.
Definition BatteryStateFull : Z := 3.

(** [func (v BatteryState) String() string]. *)
Definition BatteryState_String (v : Z) : string :=
  if (v =? BatteryStateUnplugged)%Z then "On battery, discharging"
  else if (v =? BatteryStateCharging)%Z then "Plugged in, less than 100%"
  else if (v =? BatteryStateFull)%Z then "Plugged in, at 100%"
  else "UNKNOWN".

(** [type AppState int]. *)
Definition AppStateNotUnkown : Z := 0.
Definition AppStateNotRunning : Z := 1.
Definition AppStateRunningBack : Z := 3.
Definition AppStateRunningFront : Z := 4.

(** [func (v AppState) String() string]. *)
Definition AppState_String (v : Z) : string :=
  if (v =? AppStateNotRunning)%Z then "Not Running"
  else if (v =? AppStateRunningBack)%Z then "Running (Back)"
  else if (v =? AppStateRunningFront)%Z then "Running (Front)"
  else "UNKNOWN".

End States.

(** ** Session descriptor *)

Module Session.
Import JSON Errors Decode.
#[local] Open Scope list_scope.

(** The [Capabilities] struct of [SessionInfo]. *)
Record sessionCapabilities : Type := mkSessionCapabilities {
  Device : string;               (* json:"device" *)
  BrowserName : string;          (* json:"browserName" *)
  SdkVersion : string;           (* json:"sdkVersion" *)
  CFBundleIdentifier : string    (* json:"CFBundleIdentifier" *)
}.

(** [type SessionInfo struct]. *)
Record SessionInfo : Type := mkSessionInfo {
  SessionId : string;                  (* json:"sessionId" *)
  Capabilities : sessionCapabilities   (* json:"capabilities" *)
}.

Definition zeroCapabilities : sessionCapabilities :=
  mkSessionCapabilities "" "" "" "".

(** [SessionInfo{}]. *)
Definition zeroSessionInfo : SessionInfo := mkSessionInfo "" zeroCapabilities.

Definition capabilitiesFields : list (field sessionCapabilities) :=
  [ ("device", fun cur j =>
       let '(s, e) := storeString (Device cur) j in
       (mkSessionCapabilities s (BrowserName cur) (SdkVersion cur)
          (CFBundleIdentifier cur), e));
    ("browserName", fun cur j =>
       let '(s, e) := storeString (BrowserName cur) j in
       (mkSessionCapabilities (Device cur) s (SdkVersion cur)
          (CFBundleIdentifier cur), e));
    ("sdkVersion", fun cur j =>
       let '(s, e) := storeString (SdkVersion cur) j in
       (mkSessionCapabilities (Device cur) (BrowserName cur) s
          (CFBundleIdentifier cur), e));
    ("CFBundleIdentifier", fun cur j =>
       let '(s, e) := storeString (CFBundleIdentifier cur) j in
       (mkSessionCapabilities (Device cur) (BrowserName cur) (SdkVersion cur)
          s, e)) ].

(** The fields of [struct{ SessionInfo }]: those of the embedded struct. *)
Definition sessionInfoFields : list (field SessionInfo) :=
  [ ("sessionId", fun cur j =>
       let '(s, e) := storeString (SessionId cur) j in
       (mkSessionInfo s (Capabilities cur), e));
    ("capabilities", fun cur j =>
       let '(c, e) := storeStruct capabilitiesFields (Capabilities cur) j in
       (mkSessionInfo (SessionId cur) c, e)) ].

(** [func (r rawResponse) valueConvertToSessionInfo()
    (sessionInfo SessionInfo, err error)]. *)
Definition valueConvertToSessionInfo (r : list ascii)
  : SessionInfo * option error :=
  let '(reply, err) :=
    Unmarshal (storeStruct (valueField (storeStruct sessionInfoFields))) r
      (mkReply zeroSessionInfo) in
  match err with
  | Some e => (zeroSessionInfo, Some e)
  | None => (Value reply, None)
  end.

(** The text a struct field named [name] ends with when the string
    members [kvs] are stored in it, [cur] being its content before: that
    of the last member whose key is the name, in any case. *)
Definition lastUnder (name : string) (kvs : list (string * string))
  (cur : string) : string :=
  List.fold_left
    (fun acc kv =>
       if String.eqb (foldName (fst kv)) (foldName name) then snd kv else acc)
    kvs cur.

End Session.

(** ** Wire shapes

    The shapes of replies the properties below speak of, as JSON values. *)

Module Envelope.
Import JSON Decode.
#[local] Open Scope list_scope.

(** A key that selects the field [Value] of a reply struct: [value] in
    any case. *)
Definition selectsValue (key : string) : bool :=
  String.eqb (foldName key) "VALUE".

(** A key that selects a field of the struct [checkErr] decodes the
    value into: [error], [message] or [traceback] in any case. *)
Definition selectsErrorField (key : string) : bool :=
  existsb (fun name => String.eqb (foldName key) (foldName name))
    ["error"; "message"; "traceback"].

(** The content of an envelope: the value of the one member of the object
    whose key is [value]; other members may stand beside it. *)
Definition envelopeValue (j : value) : option value :=
  match j with
  | Object ms =>
      match List.filter (fun m => selectsValue (fst m)) ms with
      | [(_, x)] => Some x
      | _ => None
      end
  | _ => None
  end.

(** An object without a member whose key is [value]. *)
Definition lacksValue (j : value) : bool :=
  match j with
  | Object ms =>
      match List.filter (fun m => selectsValue (fst m)) ms with
      | [] => true
      | _ :: _ => false
      end
  | _ => false
  end.

(** The bytes of the envelope [{"value": "<s>"}] around the text [s]. *)
Definition stringEnvelope (s : list ascii) : list ascii :=
  text "{'value': '" ++ s ++ text "'}".

(** The JSON object with the given string members, and the Go map it
    denotes (of two members with one key the later one counts). *)
Definition stringMembers (kvs : list (string * string)) : list (string * value) :=
  List.map (fun kv => (fst kv, Str (snd kv))) kvs.

Definition mapOf (kvs : list (string * string)) : gmap string string :=
  List.fold_left (fun m kv => <[fst kv := snd kv]> m) kvs ∅.

Definition elementObject (kvs : list (string * string)) : value :=
  Object (stringMembers kvs).

(** JSON values of the wrong type for a Go [string], a Go [bool] and a Go
    struct: anything but a string (a boolean, an object) and [null]. *)
Definition notForString (x : value) : Prop :=
  match x with Str _ | Null => False | _ => True end.

Definition notForBool (x : value) : Prop :=
  match x with Bool _ | Null => False | _ => True end.

Definition notForStruct (j : value) : Prop :=
  match j with Object _ | Null => False | _ => True end.

End Envelope.

(** ** What the specification asks of the error text *)

Module Spec.
Import Regexp Response.

(** The last captured group of the last match of the pattern in the
    message. *)
Definition lastGroupOfLastMatch (Message : string) : string :=
  List.last (List.last (FindAllStringSubmatch re Message) []) "".

(** The last captured group of the first match. *)
Definition lastGroupOfFirstMatch (Message : string) : string :=
  List.last (List.hd [] (FindAllStringSubmatch re Message)) "".

End Spec.

(** ** Concrete inputs used by the examples below *)

Module Examples.
Import Resolver ElementTypes Selector JSON Response.

(** An element reference that carries both identifier keys. *)
Definition bothKeys : gmap string string :=
  <[webElementIdentifier := "w3c-id"]> (<[legacyWebElementIdentifier := "old-id"]> ∅).

(** [BySelector{Id: "login", XPath: "//a"}]. *)
Definition idAndXPath : BySelector :=
  mkBySelector zero "" "login" "" [] [] "" "" "//a".

(** [BySelector{XPath: "UNKNOWN"}]. *)
Definition unknownXPath : BySelector :=
  mkBySelector zero "" "" "" [] [] "" "" "UNKNOWN".

(** [ElementType{Button: true, Cell: true}]. *)
Definition buttonAndCell : ElementType :=
  mkElementType false false false false false false false false false true false false
    false false false false false false false false false false false false
    false false false false false false false false false false false false
    false false false false false false false false false false false false
    false false false false false false false false false false false false
    false false false false false false false false false false false false
    false false false true false false false false false false false.

(** Reply bodies. *)
Definition wrappedError : rawResponse :=
  text "{'value': {'error': 'no such element', 'message': 'Original error: {NSLocalizedDescription=Element not found}', 'traceback': ''}, 'sessionId': null}".

Definition twoGroupsError : rawResponse :=
  text "{'value': {'error': 'e', 'message': '{a=b} {c=d}'}}".

Definition notJSON : rawResponse := text "<html>Bad Gateway</html>".

Definition emptyObject : rawResponse := text "{}".

Definition numberValue : rawResponse := text "{'value': 42}".

Definition emptyList : rawResponse := text "{'value': []}".

Definition legacyElement : rawResponse :=
  text "{'value': {'ELEMENT': 'E-1'}, 'sessionId': 'S'}".

Definition twoElements : rawResponse :=
  text "{'value': [{'ELEMENT': 'E-1'}, {'element-6066-11e4-a52e-4f735466cecf': 'E-2', 'ELEMENT': 'old'}]}".

Definition helloBytes : list ascii := list_ascii_of_string "hello".

(** An error reply whose message wraps nothing in braces. *)
Definition plainError : rawResponse :=
  text "{'value': {'error': 'timeout', 'message': 'session timed out'}}".

(** The reply to a session request. *)
Definition sessionReply : rawResponse :=
  text "{'value': {'sessionId': 'S-1', 'capabilities': {'device': 'iphone', 'sdkVersion': '14.1'}}, 'sessionId': 'S-1'}".

(** A string value with a character outside the base64 alphabet at
    offset 4. *)
Definition corruptBase64 : rawResponse :=
  Envelope.stringEnvelope (text "aGVs*G8=").

(** [NewElementAttribute().WithName("Save")], and a selector with it as
    its link text. *)
Definition nameIsSave : Attributes.attributeMap :=
  Some {["name" := VString "Save"]}.

Definition linkTextSave : BySelector :=
  mkBySelector zero "" "" "" [("name", VString "Save")] [] "" "" "".

(** [NewAppLaunchOption().WithBundleId("com.apple.Preferences")]. *)
Definition preferencesApp : Options.AppLaunchOption :=
  Some {["bundleId" := Options.GString "com.apple.Preferences"]}.

End Examples.

(** * Properties *)

(** ** Identifier resolver *)

Section ResolverProperties.
Import Resolver.

Lemma nonEmptyAt_found (val : gmap string string) (key v : string) :
  val !! key = Some v -> v <> "" -> nonEmptyAt val key = Some v.
Proof.
  intros Hk Hv. unfold nonEmptyAt. rewrite Hk.
  destruct (decide (v = "")); congruence.
Qed.

Lemma nonEmptyAt_none (val : gmap string string) (key : string) :
  val !! key = None \/ val !! key = Some "" -> nonEmptyAt val key = None.
Proof.
  intros [Hk | Hk]; unfold nonEmptyAt; rewrite Hk; reflexivity.
Qed.

Lemma nonEmptyAt_none_inv (val : gmap string string) (key : string) :
  nonEmptyAt val key = None -> val !! key = None \/ val !! key = Some "".
Proof.
  unfold nonEmptyAt. destruct (val !! key) as [v|]; [|auto].
  destruct (decide (v = "")); [subst; auto | discriminate].
Qed.

Lemma nonEmptyAt_nonempty (val : gmap string string) (key v : string) :
  nonEmptyAt val key = Some v -> v <> "".
Proof.
  unfold nonEmptyAt. destruct (val !! key) as [w|]; [|discriminate].
  destruct (decide (w = "")); [discriminate | congruence].
Qed.

(** The resolver returns the empty string exactly when neither key holds
    a non-empty value. *)
Lemma elementIDFromValue_empty_iff (val : gmap string string) :
  elementIDFromValue val = "" <->
  (val !! webElementIdentifier = None \/ val !! webElementIdentifier = Some "") /\
  (val !! legacyWebElementIdentifier = None \/ val !! legacyWebElementIdentifier = Some "").
Proof.
  unfold elementIDFromValue; simpl. split.
  - destruct (nonEmptyAt val webElementIdentifier) as [w|] eqn:Hw.
    { intros ->. now apply nonEmptyAt_nonempty in Hw. }
    destruct (nonEmptyAt val legacyWebElementIdentifier) as [l|] eqn:Hl.
    { intros ->. now apply nonEmptyAt_nonempty in Hl. }
    intros _. split; now apply nonEmptyAt_none_inv.
  - intros [Hw Hl].
    now rewrite (nonEmptyAt_none _ _ Hw), (nonEmptyAt_none _ _ Hl).
Qed.

(** C1.  Two-key resolution: a non-empty value under the W3C key is
    returned, whatever the legacy key holds; when the W3C key is absent or
    empty, a non-empty value under the legacy key is returned; when both
    are absent or empty, the result is the empty string. *)
Theorem elementIDFromValue_two_key_resolution (val : gmap string string) :
  (forall w, val !! webElementIdentifier = Some w -> w <> "" ->
     elementIDFromValue val = w) /\
  (forall l,
     val !! webElementIdentifier = None \/ val !! webElementIdentifier = Some "" ->
     val !! legacyWebElementIdentifier = Some l -> l <> "" ->
     elementIDFromValue val = l) /\
  (val !! webElementIdentifier = None \/ val !! webElementIdentifier = Some "" ->
   val !! legacyWebElementIdentifier = None \/ val !! legacyWebElementIdentifier = Some "" ->
   elementIDFromValue val = "").
Proof.
  unfold elementIDFromValue; simpl. repeat split.
  - intros w Hw Hne. now rewrite (nonEmptyAt_found _ _ _ Hw Hne).
  - intros l Hw Hl Hne.
    now rewrite (nonEmptyAt_none _ _ Hw), (nonEmptyAt_found _ _ _ Hl Hne).
  - intros Hw Hl.
    now rewrite (nonEmptyAt_none _ _ Hw), (nonEmptyAt_none _ _ Hl).
Qed.

(** With both keys present and different, the W3C value wins. *)
Lemma elementIDFromValue_both_keys :
  Examples.bothKeys !! legacyWebElementIdentifier = Some "old-id" /\
  elementIDFromValue Examples.bothKeys = "w3c-id".
Proof.
  split; [reflexivity |].
  apply (proj1 (elementIDFromValue_two_key_resolution Examples.bothKeys));
    [reflexivity | discriminate].
Defined.

End ResolverProperties.

(** ** Element type rendering *)

Section ElementTypeProperties.
Import ElementTypes.

(** The loop returns the tag at the first index that holds [true]. *)
Lemma firstTrue_at (fs : list (string * bool)) (i : nat) (tag : string) :
  fs !! i = Some (tag, true) ->
  (forall j t b, j < i -> fs !! j = Some (t, b) -> b = false) ->
  firstTrue fs = tag.
Proof.
  revert i. induction fs as [|[t b] fs IH]; intros i Hi Hbefore.
  - discriminate.
  - destruct i as [|i]; simpl in *.
    + now inversion Hi.
    + rewrite (Hbefore 0 t b); [| lia | reflexivity].
      apply (IH i Hi). intros j t' b' Hj Hl.
      apply (Hbefore (S j) t' b'); [lia | exact Hl].
Qed.

Lemma firstTrue_none (fs : list (string * bool)) :
  (forall i t b, fs !! i = Some (t, b) -> b = false) ->
  firstTrue fs = "UNKNOWN".
Proof.
  induction fs as [|[t b] fs IH]; intros Hall; simpl.
  - reflexivity.
  - rewrite (Hall 0 t b eq_refl). apply IH.
    intros i t' b' Hi. exact (Hall (S i) t' b' Hi).
Qed.

(** C7.  [String] returns the [json] tag of the first field, in
    declaration order, that is [true], and ["UNKNOWN"] when no field is;
    so a flag set whose first true flag is [Button] renders to
    ["XCUIElementTypeButton"], whatever the later flags hold. *)
Theorem ElementType_String_first_true (et : ElementType) :
  (forall i tag,
     fields et !! i = Some (tag, true) ->
     (forall j t b, j < i -> fields et !! j = Some (t, b) -> b = false) ->
     ElementType_String et = tag) /\
  ((forall i t b, fields et !! i = Some (t, b) -> b = false) ->
   ElementType_String et = "UNKNOWN") /\
  (Button et = true ->
   Any et = false -> Other et = false -> Application et = false ->
   Group et = false -> Window et = false -> Sheet et = false ->
   Drawer et = false -> Alert et = false -> Dialog et = false ->
   ElementType_String et = "XCUIElementTypeButton") /\
  ElementType_String onlyButton = "XCUIElementTypeButton" /\
  ElementType_String zero = "UNKNOWN".
Proof.
  repeat split.
  - intros i tag. apply firstTrue_at.
  - apply firstTrue_none.
  - intros HB H0 H1 H2 H3 H4 H5 H6 H7 H8.
    unfold ElementType_String, fields; simpl.
    now rewrite H0, H1, H2, H3, H4, H5, H6, H7, H8, HB.
Qed.

(** Two flags set: [Button] comes before [Cell], so [Button] wins. *)
Lemma ElementType_String_button_before_cell :
  ElementType_String Examples.buttonAndCell = "XCUIElementTypeButton".
Proof.
  apply (proj1 (proj2 (proj2 (ElementType_String_first_true Examples.buttonAndCell))));
    reflexivity.
Defined.

End ElementTypeProperties.

(** ** Selector encoder *)

Section SelectorProperties.
Import ElementTypes Selector.

Lemma scanFields_first_active (fs : list (string * fieldValue)) (v0 : string)
  (i : nat) (tag : string) (vi : fieldValue) :
  fs !! i = Some (tag, vi) ->
  active (rendered vi) = true ->
  (forall j t v, j < i -> fs !! j = Some (t, v) -> active (rendered v) = false) ->
  scanFields fs v0 = (tag, rendered vi).
Proof.
  revert i v0. induction fs as [|[t v] fs IH]; intros i v0 Hi Hact Hbefore.
  - discriminate.
  - destruct i as [|i]; simpl in *.
    + inversion Hi; subst. now rewrite Hact.
    + rewrite (Hbefore 0 t v); [| lia | reflexivity].
      apply (IH i _ Hi Hact). intros j t' v' Hj Hl.
      apply (Hbefore (S j) t' v'); [lia | exact Hl].
Qed.

Lemma active_false (s : string) :
  active s = false -> s = "" \/ s = "UNKNOWN".
Proof.
  unfold active. destruct (String.eqb_spec s "") as [-> | _]; [auto |].
  destruct (String.eqb_spec s "UNKNOWN") as [-> | _]; [auto | discriminate].
Qed.

Lemma active_true (s : string) :
  s <> "" -> s <> "UNKNOWN" -> active s = true.
Proof.
  intros H1 H2. unfold active.
  destruct (String.eqb_spec s ""); [contradiction |].
  destruct (String.eqb_spec s "UNKNOWN"); [contradiction | reflexivity].
Qed.

(** An attribute map renders to an active value exactly when it has an
    entry. *)
Lemma ElementAttribute_String_active (ea : ElementAttribute) :
  active (ElementAttribute_String ea) = negb (Nat.eqb (length ea) 0).
Proof.
  destruct ea as [|[k v] ea]; [reflexivity |].
  cbn [ElementAttribute_String length Nat.eqb negb].
  apply active_true.
  - destruct k; discriminate.
  - intros H.
    assert (Hin : forall a b : string,
              In "="%char (list_ascii_of_string (a +:+ "=" +:+ b))).
    { clear. intros a b. induction a as [|c a IH]; simpl; auto. }
    specialize (Hin k (formatValue v)). rewrite H in Hin.
    simpl in Hin. intuition discriminate.
Qed.

(** With no active field the loop runs to its end: [using] is empty and
    [value] is what the last field, [XPath], rendered to. *)
Lemma getUsingAndValue_none_active (wl : BySelector) :
  (forall i t v, selectorFields wl !! i = Some (t, v) ->
     active (rendered v) = false) ->
  getUsingAndValue wl = ("", XPath wl).
Proof.
  intros Hall.
  pose proof (Hall 0 _ _ eq_refl) as H0. pose proof (Hall 1 _ _ eq_refl) as H1.
  pose proof (Hall 2 _ _ eq_refl) as H2. pose proof (Hall 3 _ _ eq_refl) as H3.
  pose proof (Hall 4 _ _ eq_refl) as H4. pose proof (Hall 5 _ _ eq_refl) as H5.
  pose proof (Hall 6 _ _ eq_refl) as H6. pose proof (Hall 7 _ _ eq_refl) as H7.
  pose proof (Hall 8 _ _ eq_refl) as H8.
  unfold getUsingAndValue, selectorFields. cbn [scanFields].
  now rewrite H0, H1, H2, H3, H4, H5, H6, H7, H8.
Qed.

(** C2, as the code has it.  The fields are scanned in declaration order
    and the first one whose rendered value is neither empty nor
    ["UNKNOWN"] gives [using] (its wire name) and [value] (its rendered
    value).  With no such field [using] is empty and [value] is the
    rendered [XPath], that is, empty or the literal ["UNKNOWN"].  A
    selector with an [Id] that is neither empty nor ["UNKNOWN"], and whose
    [ClassName] and [Name] are not active, yields [using = "id"] whatever
    [XPath] holds. *)
Theorem getUsingAndValue_first_active (wl : BySelector) :
  List.map fst (selectorFields wl) =
    ["class name"; "name"; "id"; "accessibility id"; "link text";
     "partial link text"; "predicate string"; "class chain"; "xpath"] /\
  (forall i tag vi,
     selectorFields wl !! i = Some (tag, vi) ->
     active (rendered vi) = true ->
     (forall j t v, j < i -> selectorFields wl !! j = Some (t, v) ->
        active (rendered v) = false) ->
     getUsingAndValue wl = (tag, rendered vi)) /\
  ((forall i t v, selectorFields wl !! i = Some (t, v) ->
      active (rendered v) = false) ->
   getUsingAndValue wl = ("", XPath wl) /\
   (XPath wl = "" \/ XPath wl = "UNKNOWN")) /\
  (Id wl <> "" -> Id wl <> "UNKNOWN" ->
   active (ElementType_String (ClassName wl)) = false ->
   active (Name wl) = false ->
   getUsingAndValue wl = ("id", Id wl)).
Proof.
  split; [reflexivity |]. split; [| split].
  - intros i tag vi. apply scanFields_first_active.
  - intros Hall. split; [now apply getUsingAndValue_none_active |].
    apply active_false. exact (Hall 8 _ _ eq_refl).
  - intros Hne Hunk Hcls Hname.
    unfold getUsingAndValue, selectorFields. cbn [scanFields rendered].
    now rewrite Hcls, Hname, (active_true _ Hne Hunk).
Qed.

(** A selector with an id and an xpath: [id] comes first. *)
Lemma getUsingAndValue_id_before_xpath :
  XPath Examples.idAndXPath = "//a" /\
  getUsingAndValue Examples.idAndXPath = ("id", "login").
Proof.
  split; [reflexivity |].
  apply (proj2 (proj2 (proj2 (getUsingAndValue_first_active Examples.idAndXPath))));
    [discriminate | discriminate | reflexivity | reflexivity].
Defined.

(** C2 as stated fails: in [BySelector{XPath: "UNKNOWN"}] no field is
    active, and yet [value] is not empty. *)
Lemma getUsingAndValue_unknown_xpath_leaks :
  Forall (fun f => active (rendered (snd f)) = false)
    (selectorFields Examples.unknownXPath) /\
  getUsingAndValue Examples.unknownXPath = ("", "UNKNOWN") /\
  getUsingAndValue Examples.unknownXPath <> ("", "").
Proof.
  split; [repeat constructor |]. split; [reflexivity | discriminate].
Qed.

End SelectorProperties.

(** ** The JSON parser always has budget enough *)

Section ParserProperties.
Import JSON.
#[local] Open Scope list_scope.

Lemma skipSpace_length (s : list ascii) : length (skipSpace s) <= length s.
Proof.
  induction s as [|c s IH]; [reflexivity |]. cbn [skipSpace].
  destruct (isSpace c); cbn [length]; lia.
Qed.

Lemma emit_some (cs : list ascii) (r : option (list ascii * list ascii))
  (x rest : list ascii) :
  JSON.emit cs r = Some (x, rest) -> exists y, r = Some (y, rest).
Proof. destruct r as [[y r']|]; [intros [= _ <-]; eauto | discriminate]. Qed.

Lemma scanString_length_aux (n : nat) :
  forall s x rest,
    length s <= n -> scanString s = Some (x, rest) -> length rest < length s.
Proof.
  induction n as [|n IH]; intros s x rest Hn Hs.
  - destruct s; [discriminate | simpl in Hn; lia].
  - destruct s as [|c s1]; [discriminate |].
    cbn [scanString] in Hs. cbn [length] in *.
    assert (Hrec : forall s' y, length s' <= length s1 ->
              JSON.emit y (scanString s') = Some (x, rest) ->
              length rest < S (length s1)).
    { intros s' y Hl He. apply emit_some in He as [z Hz].
      apply IH in Hz; lia. }
    destruct (eqc c dquote); [injection Hs as _ <-; lia |].
    destruct (eqc c "\").
    { destruct s1 as [|e s2]; [discriminate |]. cbn [length] in *.
      destruct (eqc e "u").
      - destruct s2 as [|h1 [|h2 [|h3 [|h4 s6]]]]; try discriminate.
        destruct (getu4 h1 h2 h3 h4); [| discriminate].
        destruct (escapedRune n0 s6) as [out [|]].
        + destruct s6 as [|? [|? [|? [|? [|? [|? s12]]]]]];
            (eapply Hrec; [| exact Hs]); cbn [length]; lia.
        + destruct s6 as [|? [|? [|? [|? [|? [|? s12]]]]]];
            (eapply Hrec; [| exact Hs]); cbn [length]; lia.
      - destruct (unescape e); [| discriminate].
        eapply Hrec; [| exact Hs]. lia. }
    destruct (code c <? 32)%N; [discriminate |].
    destruct (code c <? 128)%N; [eapply Hrec; [| exact Hs]; lia |].
    destruct (runeSize c s1) as [|[|[|[|[|?]]]]];
      destruct s1 as [|b1 [|b2 [|b3 s4]]];
      (eapply Hrec; [| exact Hs]); cbn [length]; lia.
Qed.

Lemma scanString_length (s x rest : list ascii) :
  scanString s = Some (x, rest) -> length rest < length s.
Proof. now apply (scanString_length_aux (length s)). Qed.

Lemma stripPrefix_length (w s rest : list ascii) :
  stripPrefix w s = Some rest -> length rest <= length s.
Proof.
  revert s. induction w as [|a w IH]; intros s Hs.
  - now injection Hs as ->.
  - destruct s as [|c s]; [discriminate |]. cbn [stripPrefix] in Hs.
    destruct (eqc a c); [| discriminate]. apply IH in Hs. cbn [length]. lia.
Qed.

Lemma spanDigits_length (s : list ascii) :
  length (snd (spanDigits s)) <= length s.
Proof.
  induction s as [|c s IH]; [reflexivity |]. cbn [spanDigits].
  destruct (isDigit c); [| reflexivity].
  destruct (spanDigits s) as [ds r]. cbn [snd length] in *. lia.
Qed.

Lemma scanInt_length (s lit rest : list ascii) :
  scanInt s = Some (lit, rest) -> length rest < length s.
Proof.
  destruct s as [|c s]; [discriminate |]. cbn [scanInt length].
  destruct (eqc c "0"); [intros [= _ <-]; lia |].
  destruct (isDigit c); [| discriminate].
  pose proof (spanDigits_length s) as Hl.
  destruct (spanDigits s) as [ds r]. intros [= _ <-]. cbn [snd] in Hl. lia.
Qed.

Lemma scanFrac_length (s lit rest : list ascii) :
  scanFrac s = Some (lit, rest) -> length rest <= length s.
Proof.
  destruct s as [|c s]; [intros [= _ <-]; reflexivity |]. cbn [scanFrac length].
  destruct (eqc c "."); [| intros [= _ <-]; reflexivity].
  pose proof (spanDigits_length s) as Hl.
  destruct (spanDigits s) as [[|d ds] r]; [discriminate |].
  intros [= _ <-]. cbn [snd] in Hl. lia.
Qed.

Lemma scanExp_length (s lit rest : list ascii) :
  scanExp s = Some (lit, rest) -> length rest <= length s.
Proof.
  destruct s as [|c s]; [intros [= _ <-]; reflexivity |]. cbn [scanExp length].
  destruct (eqc c "e" || eqc c "E"); [| intros [= _ <-]; reflexivity].
  destruct s as [|d r0].
  - cbn. discriminate.
  - destruct (eqc d "+" || eqc d "-").
    + pose proof (spanDigits_length r0) as Hl.
      destruct (spanDigits r0) as [[|x ds] r]; [discriminate |].
      intros [= _ <-]. cbn [snd length] in *. lia.
    + pose proof (spanDigits_length (d :: r0)) as Hl.
      destruct (spanDigits (d :: r0)) as [[|x ds] r]; [discriminate |].
      intros [= _ <-]. cbn [snd length] in *. lia.
Qed.

Lemma scanNumber_length (s lit rest : list ascii) :
  scanNumber s = Some (lit, rest) -> length rest < length s.
Proof.
  unfold scanNumber.
  assert (H : forall m s0, length s0 <= length s ->
            match scanInt s0 with
            | Some (i, s1) =>
                match scanFrac s1 with
                | Some (f, s2) =>
                    match scanExp s2 with
                    | Some (e, s3) => Some (m ++ i ++ f ++ e, s3)
                    | None => None
                    end
                | None => None
                end
            | None => None
            end = Some (lit, rest) -> length rest < length s).
  { intros m s0 Hl.
    destruct (scanInt s0) as [[i s1]|] eqn:Hi; [| discriminate].
    destruct (scanFrac s1) as [[f s2]|] eqn:Hf; [| discriminate].
    destruct (scanExp s2) as [[e s3]|] eqn:He; [| discriminate].
    intros [= _ <-]. apply scanInt_length in Hi. apply scanFrac_length in Hf.
    apply scanExp_length in He. lia. }
  destruct s as [|c s']; [apply (H []); reflexivity |].
  destruct (eqc c "-"); apply H; cbn [length]; lia.
Qed.

Lemma bind_parsed {A B : Type} (r : result A)
  (k : A -> list ascii -> result B) (b : B) (rest : list ascii) :
  bind r k = Parsed b rest ->
  exists a r1, r = Parsed a r1 /\ k a r1 = Parsed b rest.
Proof. destruct r; [eauto | discriminate | discriminate]. Qed.

Lemma bind_starved {A B : Type} (r : result A)
  (k : A -> list ascii -> result B) :
  bind r k = Starved ->
  r = Starved \/ exists a r1, r = Parsed a r1 /\ k a r1 = Starved.
Proof. destruct r; [eauto | discriminate | auto]. Qed.

(** Every parsing function consumes input. *)
Lemma parse_progress (fuel : nat) :
  forall (depth : N) (s : list ascii),
    (forall v rest, parseValue fuel depth s = Parsed v rest ->
       length rest < length s) /\
    (forall vs rest, parseElements fuel depth s = Parsed vs rest ->
       length rest < length s) /\
    (forall ms rest, parseMembers fuel depth s = Parsed ms rest ->
       length rest < length s).
Proof.
  induction fuel as [|fuel IH]; intros depth s.
  { repeat split; discriminate. }
  pose proof (skipSpace_length s) as Hs.
  repeat split.
  - intros v rest. cbn [parseValue].
    destruct (skipSpace s) as [|c s1]; [discriminate |]. cbn [length] in Hs.
    pose proof (skipSpace_length s1) as Hs1.
    destruct (eqc c "{").
    { destruct (depth <? maxNestingDepth)%N; [| discriminate].
      destruct (skipSpace s1) as [|c' s2]; [discriminate |]. cbn [length] in Hs1.
      destruct (eqc c' "}"); [intros [= _ <-]; lia |].
      intros Hb. apply bind_parsed in Hb as (ms & r1 & Hm & [= _ <-]).
      apply IH in Hm. lia. }
    destruct (eqc c "[").
    { destruct (depth <? maxNestingDepth)%N; [| discriminate].
      destruct (skipSpace s1) as [|c' s2]; [discriminate |]. cbn [length] in Hs1.
      destruct (eqc c' "]"); [intros [= _ <-]; lia |].
      intros Hb. apply bind_parsed in Hb as (ms & r1 & Hm & [= _ <-]).
      apply IH in Hm. lia. }
    destruct (eqc c dquote).
    { destruct (scanString s1) as [[cs r]|] eqn:Hq; [| discriminate].
      intros [= _ <-]. apply scanString_length in Hq. lia. }
    destruct (eqc c "t").
    { destruct (stripPrefix _ s1) eqn:Hp; [| discriminate].
      intros [= _ <-]. apply stripPrefix_length in Hp. lia. }
    destruct (eqc c "f").
    { destruct (stripPrefix _ s1) eqn:Hp; [| discriminate].
      intros [= _ <-]. apply stripPrefix_length in Hp. lia. }
    destruct (eqc c "n").
    { destruct (stripPrefix _ s1) eqn:Hp; [| discriminate].
      intros [= _ <-]. apply stripPrefix_length in Hp. lia. }
    destruct (scanNumber (c :: s1)) as [[lit r]|] eqn:Hn; [| discriminate].
    intros [= _ <-]. apply scanNumber_length in Hn. cbn [length] in Hn. lia.
  - intros vs rest. cbn [parseElements].
    intros Hb. apply bind_parsed in Hb as (v & r1 & Hv & Hk).
    apply IH in Hv. pose proof (skipSpace_length r1) as Hr1.
    destruct (skipSpace r1) as [|c r]; [discriminate |]. cbn [length] in Hr1.
    destruct (eqc c ",").
    { apply bind_parsed in Hk as (vs' & r2 & Hvs & [= _ <-]).
      apply IH in Hvs. lia. }
    destruct (eqc c "]"); [| discriminate]. injection Hk as _ <-. lia.
  - intros ms rest. cbn [parseMembers].
    destruct (skipSpace s) as [|q s1]; [discriminate |]. cbn [length] in Hs.
    destruct (eqc q dquote); [| discriminate].
    destruct (scanString s1) as [[key r0]|] eqn:Hq; [| discriminate].
    apply scanString_length in Hq. pose proof (skipSpace_length r0) as Hr0.
    destruct (skipSpace r0) as [|colon r]; [discriminate |]. cbn [length] in Hr0.
    destruct (eqc colon ":"); [| discriminate].
    intros Hb. apply bind_parsed in Hb as (v & r1 & Hv & Hk).
    apply IH in Hv. pose proof (skipSpace_length r1) as Hr1.
    destruct (skipSpace r1) as [|c r']; [discriminate |]. cbn [length] in Hr1.
    destruct (eqc c ",").
    { apply bind_parsed in Hk as (ms' & r2 & Hms & [= _ <-]).
      apply IH in Hms. lia. }
    destruct (eqc c "}"); [| discriminate]. injection Hk as _ <-. lia.
Qed.

(** A budget of twice the length of the input (and one more) is never
    used up. *)
Lemma parse_fuel_suffices (fuel : nat) :
  forall (depth : N) (s : list ascii),
    (2 * length s + 1 <= fuel -> parseValue fuel depth s <> Starved) /\
    (2 * length s + 2 <= fuel -> parseElements fuel depth s <> Starved) /\
    (2 * length s + 2 <= fuel -> parseMembers fuel depth s <> Starved).
Proof.
  induction fuel as [|fuel IH]; intros depth s.
  { repeat split; lia. }
  pose proof (skipSpace_length s) as Hs.
  repeat split.
  - intros Hf. cbn [parseValue].
    destruct (skipSpace s) as [|c s1]; [discriminate |]. cbn [length] in Hs.
    pose proof (skipSpace_length s1) as Hs1.
    destruct (eqc c "{").
    { destruct (depth <? maxNestingDepth)%N; [| discriminate].
      destruct (skipSpace s1) as [|c' s2]; [discriminate |].
      destruct (eqc c' "}"); [discriminate |].
      intros Hb. apply bind_starved in Hb as [Hb | (ms & r1 & _ & Hk)];
        [| discriminate].
      revert Hb. apply IH. lia. }
    destruct (eqc c "[").
    { destruct (depth <? maxNestingDepth)%N; [| discriminate].
      destruct (skipSpace s1) as [|c' s2]; [discriminate |].
      destruct (eqc c' "]"); [discriminate |].
      intros Hb. apply bind_starved in Hb as [Hb | (ms & r1 & _ & Hk)];
        [| discriminate].
      revert Hb. apply IH. lia. }
    destruct (eqc c dquote);
      [destruct (scanString s1) as [[? ?]|]; discriminate |].
    destruct (eqc c "t"); [destruct (stripPrefix _ s1); discriminate |].
    destruct (eqc c "f"); [destruct (stripPrefix _ s1); discriminate |].
    destruct (eqc c "n"); [destruct (stripPrefix _ s1); discriminate |].
    destruct (scanNumber (c :: s1)) as [[? ?]|]; discriminate.
  - intros Hf. cbn [parseElements].
    intros Hb. apply bind_starved in Hb as [Hb | (v & r1 & Hv & Hk)].
    { revert Hb. apply IH. lia. }
    apply (parse_progress fuel) in Hv.
    pose proof (skipSpace_length r1) as Hr1.
    destruct (skipSpace r1) as [|c r]; [discriminate |]. cbn [length] in Hr1.
    destruct (eqc c ",").
    { apply bind_starved in Hk as [Hk | (vs & r2 & _ & Hk)]; [| discriminate].
      revert Hk. apply IH. lia. }
    destruct (eqc c "]"); discriminate.
  - intros Hf. cbn [parseMembers].
    destruct (skipSpace s) as [|q s1]; [discriminate |]. cbn [length] in Hs.
    destruct (eqc q dquote); [| discriminate].
    destruct (scanString s1) as [[key r0]|] eqn:Hq; [| discriminate].
    apply scanString_length in Hq. pose proof (skipSpace_length r0) as Hr0.
    destruct (skipSpace r0) as [|colon r]; [discriminate |]. cbn [length] in Hr0.
    destruct (eqc colon ":"); [| discriminate].
    intros Hb. apply bind_starved in Hb as [Hb | (v & r1 & Hv & Hk)].
    { revert Hb. apply IH. lia. }
    apply (parse_progress fuel) in Hv.
    pose proof (skipSpace_length r1) as Hr1.
    destruct (skipSpace r1) as [|c r']; [discriminate |]. cbn [length] in Hr1.
    destruct (eqc c ",").
    { apply bind_starved in Hk as [Hk | (ms & r2 & _ & Hk)]; [| discriminate].
      revert Hk. apply IH. lia. }
    destruct (eqc c "}"); discriminate.
Qed.

(** [scan] never runs out of budget: [parse] returns [None] only for a
    text that is not valid JSON. *)
Lemma scan_never_starved (data : list ascii) : scan data <> Starved.
Proof.
  unfold scan. intros Hb.
  apply bind_starved in Hb as [Hb | (v & r1 & _ & Hk)].
  - revert Hb. apply parse_fuel_suffices. lia.
  - destruct (skipSpace r1); discriminate.
Qed.

End ParserProperties.


(** ** Decoding an envelope *)

Section EnvelopeProperties.
Import JSON Errors Decode Envelope.
#[local] Open Scope list_scope.

Context {A : Type} (store : A -> value -> A * option error).

Lemma findField_valueField (k : string) :
  findField (valueField store) k =
    if selectsValue k then List.hd_error (valueField store) else None.
Proof.
  unfold findField, valueField, selectsValue. cbn [List.find fst List.hd_error].
  destruct (String.eqb_spec "Value" k) as [<- | Hne]; [reflexivity |].
  change (foldName "Value") with "VALUE".
  rewrite String.eqb_sym. now destruct (String.eqb (foldName k) "VALUE").
Qed.

(** Members that do not select [Value] are skipped. *)
Lemma storeMembers_lacksValue (ms : list (string * value)) (cur : reply A)
  (saved : option error) :
  List.filter (fun m => selectsValue (fst m)) ms = [] ->
  storeMembers (valueField store) ms cur saved = (cur, saved).
Proof.
  revert cur saved. induction ms as [|[k v] ms IH]; intros cur saved Hf.
  - reflexivity.
  - cbn [List.filter fst] in Hf. cbn [storeMembers].
    rewrite findField_valueField.
    destruct (selectsValue k); [discriminate | now apply IH].
Qed.

(** The one member that selects [Value] is stored in it. *)
Lemma storeMembers_envelope (ms : list (string * value)) (k : string)
  (x : value) (cur : reply A) (saved : option error) :
  List.filter (fun m => selectsValue (fst m)) ms = [(k, x)] ->
  storeMembers (valueField store) ms cur saved =
    (mkReply (fst (store (Value cur) x)),
     saveError saved (snd (store (Value cur) x))).
Proof.
  revert cur saved. induction ms as [|[k' v] ms IH]; intros cur saved Hf.
  - discriminate.
  - cbn [List.filter fst] in Hf. cbn [storeMembers].
    rewrite findField_valueField.
    destruct (selectsValue k').
    + inversion Hf as [[Hk Hv Hrest]]. cbn [List.hd_error valueField].
      destruct (store (Value cur) x) as [v' e]. cbn [fst snd].
      now rewrite storeMembers_lacksValue.
    + now apply IH.
Qed.

Lemma storeStruct_envelope (j x : value) (cur : reply A) :
  envelopeValue j = Some x ->
  storeStruct (valueField store) cur j =
    (mkReply (fst (store (Value cur) x)), snd (store (Value cur) x)).
Proof.
  destruct j as [| | | | |ms]; try discriminate. cbn [envelopeValue storeStruct].
  destruct (List.filter _ ms) as [|[k y] [|]] eqn:Hf; try discriminate.
  intros [= ->]. now rewrite (storeMembers_envelope _ _ _ _ _ Hf).
Qed.

Lemma storeStruct_lacksValue (j : value) (cur : reply A) :
  lacksValue j = true -> storeStruct (valueField store) cur j = (cur, None).
Proof.
  destruct j as [| | | | |ms]; try discriminate. cbn [lacksValue storeStruct].
  destruct (List.filter _ ms) eqn:Hf; [| discriminate].
  intros _. now apply storeMembers_lacksValue.
Qed.

Lemma Unmarshal_envelope (r : list ascii) (j x : value) (cur : reply A) :
  parse r = Some j -> envelopeValue j = Some x ->
  Unmarshal (storeStruct (valueField store)) r cur =
    (mkReply (fst (store (Value cur) x)), snd (store (Value cur) x)).
Proof.
  intros Hp He. unfold Unmarshal. rewrite Hp. now apply storeStruct_envelope.
Qed.

Lemma Unmarshal_syntax_error (r : list ascii) (cur : reply A) :
  parse r = None ->
  Unmarshal (storeStruct (valueField store)) r cur = (cur, Some SyntaxError).
Proof. intros Hp. unfold Unmarshal. now rewrite Hp. Qed.

End EnvelopeProperties.

(** ** The pattern of [checkErr] *)

Section RegexpProperties.
Import Regexp Response.
#[local] Open Scope list_scope.

(** One turn of the loop of [.+?]: a character that is not a new line is
    taken, and the rest of the pattern is tried before a further turn. *)
Lemma run_lazy_any {X : Type} (a : ascii) (s : list ascii) (cs : captures)
  (k : list ascii -> captures -> option X) :
  run (PlusLazy AnyCharNotNL) (a :: s) cs k =
    if Ascii.eqb a Regexp.newline then None
    else match k s cs with
         | Some x => Some x
         | None => run (PlusLazy AnyCharNotNL) s cs k
         end.
Proof. reflexivity. Qed.

(** [.+?] stops at the first place, after one character or more, where the
    rest of the pattern matches. *)
Lemma run_lazy_any_shortest {X : Type} (t rest : list ascii) (cs : captures)
  (k : list ascii -> captures -> option X) (x : X) :
  t <> [] ->
  Forall (fun c => c <> Regexp.newline) t ->
  (forall t1 t2, t = t1 ++ t2 -> t1 <> [] -> t2 <> [] ->
     k (t2 ++ rest) cs = None) ->
  k rest cs = Some x ->
  run (PlusLazy AnyCharNotNL) (t ++ rest) cs k = Some x.
Proof.
  induction t as [|a t IH]; intros Hne Hnl Hearly Hk; [contradiction |].
  inversion Hnl as [|? ? Ha Hnl']; subst.
  change ((a :: t) ++ rest) with (a :: (t ++ rest)). rewrite run_lazy_any.
  destruct (Ascii.eqb_spec a Regexp.newline); [contradiction |].
  destruct t as [|b t'].
  - cbn [app]. now rewrite Hk.
  - rewrite (Hearly [a] (b :: t') eq_refl) by discriminate.
    apply IH; [discriminate | assumption | | assumption].
    intros t1 t2 Heq Ht1 Ht2.
    apply (Hearly (a :: t1) t2); [now rewrite Heq | discriminate | assumption].
Qed.

Lemma firstn_length_diff {A : Type} (l r : list A) :
  firstn (length (l ++ r) - length r) (l ++ r) = l.
Proof.
  rewrite length_app, Nat.add_sub. 
  rewrite firstn_app, Nat.sub_diag, firstn_all. cbn [firstn]. apply app_nil_r.
Qed.

Lemma run_cat {X : Type} (r1 r2 : regex) (s : list ascii) (cs : captures)
  (k : list ascii -> captures -> option X) :
  run (Cat r1 r2) s cs k = run r1 s cs (fun s1 cs1 => run r2 s1 cs1 k).
Proof. reflexivity. Qed.

Lemma run_lit {X : Type} (c c' : ascii) (s : list ascii) (cs : captures)
  (k : list ascii -> captures -> option X) :
  run (Lit c) (c' :: s) cs k = if Ascii.eqb c c' then k s cs else None.
Proof. reflexivity. Qed.

Lemma run_capture {X : Type} (i : nat) (r : regex) (s : list ascii)
  (cs : captures) (k : list ascii -> captures -> option X) :
  run (Capture i r) s cs k =
    run r s cs (fun s1 cs1 =>
      k s1 ((i, firstn (length s - length s1) s) :: cs1)).
Proof. reflexivity. Qed.

(** A proper, non-empty end of [t] begins with a character of its tail. *)
Lemma proper_suffix_head (t t1 t2 : list ascii) (P : ascii -> Prop) :
  t = t1 ++ t2 -> t1 <> [] -> t2 <> [] -> Forall P (List.tl t) ->
  exists c t2', t2 = c :: t2' /\ P c.
Proof.
  intros -> Ht1 Ht2 Hall. destruct t1 as [|a t1]; [contradiction |].
  destruct t2 as [|c t2']; [contradiction |]. exists c, t2'. split; [reflexivity |].
  cbn [app List.tl] in Hall. apply Forall_app in Hall as [_ Hall].
  now inversion Hall.
Qed.

(** The match of the pattern at a brace that opens [{k=v}]: [k] ends at
    the first equals sign after its first character, [v] at the first
    closing brace after its first character. *)
Lemma matchHere_wrapped (k v post : list ascii) :
  k <> [] -> Forall (fun c => c <> Regexp.newline) k ->
  Forall (fun c => c <> "="%char) (List.tl k) ->
  v <> [] -> Forall (fun c => c <> Regexp.newline) v ->
  Forall (fun c => c <> "}"%char) (List.tl v) ->
  matchHere re ("{"%char :: k ++ "="%char :: v ++ "}"%char :: post) =
    Some (mkFound ("{"%char :: k ++ "="%char :: v ++ ["}"%char]) [(1, v)] post).
Proof.
  intros Hk Hknl Hkeq Hv Hvnl Hvbr.
  unfold matchHere, re. rewrite run_cat, run_lit. cbn [Ascii.eqb Bool.eqb].
  rewrite run_cat. apply run_lazy_any_shortest; [assumption | assumption | |].
  - intros t1 t2 Heq Ht1 Ht2.
    destruct (proper_suffix_head _ _ _ _ Heq Ht1 Ht2 Hkeq) as (c & t2' & -> & Hc).
    cbn [app]. rewrite run_cat, run_lit.
    destruct (Ascii.eqb_spec "=" c); [congruence | reflexivity].
  - rewrite run_cat, run_lit. cbn [Ascii.eqb Bool.eqb].
    rewrite run_cat, run_capture.
    apply run_lazy_any_shortest; [assumption | assumption | |].
    + intros t1 t2 Heq Ht1 Ht2.
      destruct (proper_suffix_head _ _ _ _ Heq Ht1 Ht2 Hvbr) as (c & t2' & -> & Hc).
      cbn [app]. rewrite run_lit.
      destruct (Ascii.eqb_spec "}" c); [congruence | reflexivity].
    + rewrite run_lit. cbn [Ascii.eqb Bool.eqb]. f_equal. f_equal.
      * assert (E : "{"%char :: k ++ "="%char :: v ++ "}"%char :: post =
                    ("{"%char :: k ++ "="%char :: v ++ ["}"%char]) ++ post).
        { cbn [app]. f_equal. rewrite <- app_assoc. cbn [app]. f_equal. f_equal.
          now rewrite <- app_assoc. }
        rewrite E. apply firstn_length_diff.
      * f_equal. f_equal.
        apply (firstn_length_diff v ("}"%char :: post)).
Qed.

(** The leftmost match: no brace opens before the one of [{k=v}]. *)
Lemma search_wrapped (pre k v post : list ascii) :
  Forall (fun c => c <> "{"%char) pre ->
  k <> [] -> Forall (fun c => c <> Regexp.newline) k ->
  Forall (fun c => c <> "="%char) (List.tl k) ->
  v <> [] -> Forall (fun c => c <> Regexp.newline) v ->
  Forall (fun c => c <> "}"%char) (List.tl v) ->
  search re (pre ++ "{"%char :: k ++ "="%char :: v ++ "}"%char :: post) =
    Some (mkFound ("{"%char :: k ++ "="%char :: v ++ ["}"%char]) [(1, v)] post).
Proof.
  intros Hpre Hk Hknl Hkeq Hv Hvnl Hvbr.
  induction pre as [|c pre IH].
  - cbn [app]. destruct k as [|a k']; [contradiction |].
    cbn [app search]. 
    change (a :: k' ++ "="%char :: v ++ "}"%char :: post)
      with ((a :: k') ++ "="%char :: v ++ "}"%char :: post).
    now rewrite matchHere_wrapped.
  - inversion Hpre as [|? ? Hc Hpre']; subst. cbn [app search].
    replace (matchHere re (c :: pre ++ "{"%char :: k ++ "="%char :: v ++ "}"%char :: post))
      with (@None found).
    + now apply IH.
    + unfold matchHere, re. rewrite run_cat, run_lit.
      destruct (Ascii.eqb_spec "{" c); [congruence | reflexivity].
Qed.

(** For a message [pre{k=v}post] the reported text is [v]. *)
Lemma errText_wrapped (pre k v post : list ascii) :
  Forall (fun c => c <> "{"%char) pre ->
  k <> [] -> Forall (fun c => c <> Regexp.newline) k ->
  Forall (fun c => c <> "="%char) (List.tl k) ->
  v <> [] -> Forall (fun c => c <> Regexp.newline) v ->
  Forall (fun c => c <> "}"%char) (List.tl v) ->
  errText (string_of_list_ascii
             (pre ++ "{"%char :: k ++ "="%char :: v ++ "}"%char :: post)) =
    string_of_list_ascii v.
Proof.
  intros Hpre Hk Hknl Hkeq Hv Hvnl Hvbr.
  unfold errText, MatchString, FindStringSubmatch.
  rewrite list_ascii_of_string_of_list_ascii.
  rewrite (search_wrapped _ _ _ _ Hpre Hk Hknl Hkeq Hv Hvnl Hvbr).
  reflexivity.
Qed.
End RegexpProperties.

(** ** Error classification *)

Section CheckErrProperties.
Import JSON Errors Decode Envelope Regexp Response.
#[local] Open Scope list_scope.

(** When the pattern matches, the reported text is the last group of the
    first match. *)
Lemma errText_first_match (msg : string) :
  MatchString re msg = true -> errText msg = Spec.lastGroupOfFirstMatch msg.
Proof.
  unfold errText, Spec.lastGroupOfFirstMatch, MatchString,
    FindStringSubmatch, FindAllStringSubmatch.
  cbn [searchAll].
  destruct (search re (list_ascii_of_string msg)) as [m|]; [| discriminate].
  intros _. reflexivity.
Qed.

Lemma errText_no_match (msg : string) :
  MatchString re msg = false -> errText msg = msg.
Proof. unfold errText. now intros ->. Qed.

(** What [checkErr] returns once the reply is decoded. *)
Lemma checkErr_decoded (r : rawResponse) (kind msg tb : string) :
  decodeErrorReply r = (mkReply (mkErrorValue kind msg tb), None) ->
  checkErr r =
    if String.eqb kind "" then None
    else Some (Errorf (kind +:+ ": " +:+ errText msg)).
Proof.
  intros Hd. unfold checkErr. rewrite Hd. cbn [Value Err Message].
  now destruct (String.eqb kind "").
Qed.

Lemma checkErr_decode_error (r : rawResponse) (rep : reply errorValue)
  (e : error) :
  decodeErrorReply r = (rep, Some e) -> checkErr r = Some e.
Proof. intros Hd. unfold checkErr. now rewrite Hd. Qed.

(** C3, as the code has it.  For a reply whose [value.error] is not empty
    and whose [value.message] matches the pattern, the error text is the
    kind, a colon, and the last captured group of the first (leftmost)
    match of the pattern in the message.  For a message [pre{k=v}post]
    with no opening brace in [pre], no equals sign in [k] after its first
    character, no closing brace in [v] after its first character and no
    new line in either, that group is [v]; for the message
    ["Original error: {NSLocalizedDescription=Element not found}"] it is
    ["Element not found"]. *)
Theorem checkErr_effective_message (r : rawResponse) (kind msg tb : string) :
  decodeErrorReply r = (mkReply (mkErrorValue kind msg tb), None) ->
  kind <> "" ->
  MatchString re msg = true ->
  checkErr r = Some (Errorf (kind +:+ ": " +:+ Spec.lastGroupOfFirstMatch msg)) /\
  (forall pre k v post : list ascii,
     msg = string_of_list_ascii
             (pre ++ "{"%char :: k ++ "="%char :: v ++ "}"%char :: post) ->
     Forall (fun c => c <> "{"%char) pre ->
     k <> [] -> Forall (fun c => c <> Regexp.newline) k ->
     Forall (fun c => c <> "="%char) (List.tl k) ->
     v <> [] -> Forall (fun c => c <> Regexp.newline) v ->
     Forall (fun c => c <> "}"%char) (List.tl v) ->
     checkErr r = Some (Errorf (kind +:+ ": " +:+ string_of_list_ascii v))) /\
  (msg = "Original error: {NSLocalizedDescription=Element not found}" ->
   checkErr r = Some (Errorf (kind +:+ ": " +:+ "Element not found"))).
Proof.
  intros Hd Hkind Hmatch.
  rewrite (checkErr_decoded _ _ _ _ Hd).
  destruct (String.eqb_spec kind ""); [contradiction |].
  split; [| split].
  - now rewrite (errText_first_match _ Hmatch).
  - intros pre k v post -> Hpre Hk Hknl Hkeq Hv Hvnl Hvbr.
    now rewrite errText_wrapped.
  - intros ->. reflexivity.
Qed.

Lemma checkErr_wrapped_message :
  checkErr Examples.wrappedError =
    Some (Errorf "no such element: Element not found").
Proof.
  apply (proj2 (proj2 (checkErr_effective_message Examples.wrappedError
                  "no such element"
                  "Original error: {NSLocalizedDescription=Element not found}"
                  "" eq_refl ltac:(discriminate) eq_refl))).
  reflexivity.
Defined.

(** C3 as stated fails: with two matches in the message the reported
    text is the group of the first match, ["b"], and not the group of the
    last one, ["d"]. *)
Lemma checkErr_reports_first_match_not_last :
  MatchString re "{a=b} {c=d}" = true /\
  Spec.lastGroupOfLastMatch "{a=b} {c=d}" = "d" /\
  checkErr Examples.twoGroupsError = Some (Errorf "e: b") /\
  checkErr Examples.twoGroupsError <>
    Some (Errorf ("e: " +:+ Spec.lastGroupOfLastMatch "{a=b} {c=d}")).
Proof.
  split; [reflexivity |]. split; [reflexivity |].
  split; [reflexivity | discriminate].
Qed.

End CheckErrProperties.

(** ** Transport executor *)

Section TransportProperties.
Import JSON Errors Decode Response Transport.

(** C4.  A received response whose body decodes to a reply with a
    non-empty [value.error] is classified as a protocol error; with status
    200 the executor returns the raw body and a nil error all the same,
    with any other status it returns the error and no body. *)
Theorem executeHTTP_status_override (StatusCode : Z) (body : rawResponse)
  (kind msg tb : string) :
  decodeErrorReply body = (mkReply (mkErrorValue kind msg tb), None) ->
  kind <> "" ->
  checkErr body = Some (Errorf (kind +:+ ": " +:+ errText msg)) /\
  (StatusCode = 200%Z ->
   executeHTTP (Received StatusCode body) = (Some body, None)) /\
  (StatusCode <> 200%Z ->
   executeHTTP (Received StatusCode body) =
     (None, Some (Errorf (kind +:+ ": " +:+ errText msg)))).
Proof.
  intros Hd Hkind.
  assert (Hc : checkErr body = Some (Errorf (kind +:+ ": " +:+ errText msg))).
  { rewrite (checkErr_decoded _ _ _ _ Hd).
    now destruct (String.eqb_spec kind ""). }
  split; [exact Hc |]. unfold executeHTTP, StatusOK. rewrite Hc. split.
  - intros ->. reflexivity.
  - intros Hne. destruct (Z.eqb_spec StatusCode 200); [contradiction | reflexivity].
Qed.

Lemma executeHTTP_200_with_error_body :
  executeHTTP (Received 200 Examples.twoGroupsError) =
    (Some Examples.twoGroupsError, None).
Proof.
  apply (proj1 (proj2 (executeHTTP_status_override 200 Examples.twoGroupsError
                         "e" "{a=b} {c=d}" "" eq_refl ltac:(discriminate)))).
  reflexivity.
Defined.

(** C10.  A received body that is not JSON makes the classification step
    itself fail with a syntax error; with status 200 the executor returns
    the raw body and a nil error, with any other status it returns that
    syntax error. *)
Theorem executeHTTP_unparsable_body (StatusCode : Z) (body : rawResponse) :
  parse body = None ->
  checkErr body = Some SyntaxError /\
  (StatusCode = 200%Z ->
   executeHTTP (Received StatusCode body) = (Some body, None)) /\
  (StatusCode <> 200%Z ->
   executeHTTP (Received StatusCode body) = (None, Some SyntaxError)).
Proof.
  intros Hp.
  assert (Hc : checkErr body = Some SyntaxError).
  { unfold checkErr, decodeErrorReply. now rewrite Unmarshal_syntax_error. }
  split; [exact Hc |]. unfold executeHTTP, StatusOK. rewrite Hc. split.
  - intros ->. reflexivity.
  - intros Hne. destruct (Z.eqb_spec StatusCode 200); [contradiction | reflexivity].
Qed.

Lemma executeHTTP_200_not_json :
  executeHTTP (Received 200 Examples.notJSON) = (Some Examples.notJSON, None).
Proof.
  apply (proj1 (proj2 (executeHTTP_unparsable_body 200 Examples.notJSON eq_refl))).
  reflexivity.
Defined.

End TransportProperties.

(** ** Typed extraction *)

Section ExtractionProperties.
Import JSON Errors Decode Envelope Resolver Response.
#[local] Open Scope list_scope.

(** C9, as the code has it.  A body that is not JSON, a body whose
    top-level value is neither an object nor [null], and an envelope whose
    [value] has the wrong JSON type (not [null]) make [valueConvertToString]
    and [valueConvertToBool] fail with a decode error.  An object without
    a [value] member, and an envelope whose [value] is [null], decode
    without error to the default value. *)
Theorem valueConvert_shape_errors (r : rawResponse) :
  (parse r = None ->
   valueConvertToString r = ("", Some SyntaxError) /\
   valueConvertToBool r = (false, Some SyntaxError)) /\
  (forall j, parse r = Some j -> notForStruct j ->
   valueConvertToString r = ("", Some (UnmarshalTypeError (describe j) TStruct)) /\
   valueConvertToBool r = (false, Some (UnmarshalTypeError (describe j) TStruct))) /\
  (forall j x, parse r = Some j -> envelopeValue j = Some x ->
   (notForString x ->
    valueConvertToString r = ("", Some (UnmarshalTypeError (describe x) TString))) /\
   (notForBool x ->
    valueConvertToBool r = (false, Some (UnmarshalTypeError (describe x) TBool))) /\
   (forall s, x = Str s -> valueConvertToString r = (s, None)) /\
   (forall b, x = Bool b -> valueConvertToBool r = (b, None)) /\
   (x = Null ->
    valueConvertToString r = ("", None) /\ valueConvertToBool r = (false, None))) /\
  (forall j, parse r = Some j -> lacksValue j = true ->
   valueConvertToString r = ("", None) /\ valueConvertToBool r = (false, None)).
Proof.
  unfold valueConvertToString, valueConvertToBool.
  split; [| split; [| split]].
  - intros Hp. now rewrite !Unmarshal_syntax_error.
  - intros j Hp Hj. unfold Unmarshal. rewrite Hp.
    destruct j; try contradiction; split; reflexivity.
  - intros j x Hp He.
    rewrite !(Unmarshal_envelope _ _ _ _ _ Hp He). cbn [Value].
    repeat split.
    + intros Hx. destruct x; try contradiction; reflexivity.
    + intros Hx. destruct x; try contradiction; reflexivity.
    + intros s ->. reflexivity.
    + intros b ->. reflexivity.
    + subst x. reflexivity.
    + subst x. reflexivity.
  - intros j Hp Hl. unfold Unmarshal. rewrite Hp.
    now rewrite !storeStruct_lacksValue.
Qed.

Lemma valueConvert_number_value :
  valueConvertToString Examples.numberValue =
    ("", Some (UnmarshalTypeError "number" TString)) /\
  valueConvertToBool Examples.notJSON = (false, Some SyntaxError).
Proof.
  split.
  - apply (proj1 (proj1 (proj2 (proj2 (valueConvert_shape_errors Examples.numberValue)))
             (Object [("value", Number "42")]) (Number "42") eq_refl eq_refl)).
    exact I.
  - apply (proj1 (valueConvert_shape_errors Examples.notJSON)). reflexivity.
Defined.

(** C9 as stated fails: the body [{}] has no [value] member, and both
    extractions return the default value with a nil error. *)
Lemma valueConvert_missing_value_is_default :
  parse Examples.emptyObject = Some (Object []) /\
  valueConvertToString Examples.emptyObject = ("", None) /\
  valueConvertToBool Examples.emptyObject = (false, None).
Proof. repeat split. Qed.

(** *** Element handles *)

Lemma storeEntries_strings (kvs : list (string * string))
  (cur : gmap string string) (saved : option error) :
  storeEntries (stringMembers kvs) cur saved =
    (List.fold_left (fun m kv => <[fst kv := snd kv]> m) kvs cur, saved).
Proof.
  revert cur saved. induction kvs as [|[k v] kvs IH]; intros cur saved.
  - reflexivity.
  - cbn [stringMembers List.map storeEntries storeString fst snd List.fold_left].
    fold (stringMembers kvs). rewrite IH. now destruct saved.
Qed.

Lemma storeMap_elementObject (kvs : list (string * string)) :
  storeMap ∅ (elementObject kvs) = (mapOf kvs, None).
Proof. unfold elementObject, mapOf. cbn [storeMap]. apply storeEntries_strings. Qed.

Lemma fold_insert_nonempty (kvs : list (string * string))
  (cur : gmap string string) :
  cur <> ∅ ->
  List.fold_left (fun m kv => <[fst kv := snd kv]> m) kvs cur <> ∅.
Proof.
  revert cur. induction kvs as [|[k v] kvs IH]; intros cur Hne; [exact Hne |].
  cbn [List.fold_left]. apply IH. apply insert_non_empty.
Qed.

Lemma mapOf_size (kvs : list (string * string)) :
  Nat.eqb (size (mapOf kvs)) 0 = Nat.eqb (length kvs) 0.
Proof.
  destruct kvs as [|[k v] kvs]; [reflexivity |].
  cbn [length Nat.eqb]. apply Nat.eqb_neq. intros Hs.
  apply map_size_empty_iff in Hs. revert Hs.
  unfold mapOf. cbn [List.fold_left]. apply fold_insert_nonempty.
  apply insert_non_empty.
Qed.

(** C5.  For an envelope whose [value] is an object of strings: an empty
    object gives the error [errNoSuchElement]; a non-empty object in which
    neither identifier key holds a non-empty string gives the error
    "invalid element returned", which is not [errNoSuchElement]; otherwise
    the resolved identifier is returned with a nil error. *)
Theorem valueConvertToElementID_outcomes (r : rawResponse) (j : value)
  (kvs : list (string * string)) :
  parse r = Some j ->
  envelopeValue j = Some (elementObject kvs) ->
  (kvs = [] -> valueConvertToElementID r = ("", Some errNoSuchElement)) /\
  (kvs <> [] ->
   (mapOf kvs !! webElementIdentifier = None \/
    mapOf kvs !! webElementIdentifier = Some "") ->
   (mapOf kvs !! legacyWebElementIdentifier = None \/
    mapOf kvs !! legacyWebElementIdentifier = Some "") ->
   valueConvertToElementID r = ("", Some (InvalidElement (mapOf kvs))) /\
   InvalidElement (mapOf kvs) <> errNoSuchElement) /\
  (elementIDFromValue (mapOf kvs) <> "" ->
   valueConvertToElementID r = (elementIDFromValue (mapOf kvs), None)).
Proof.
  intros Hp He. unfold valueConvertToElementID.
  rewrite (Unmarshal_envelope _ _ _ _ _ Hp He). cbn [Value].
  rewrite storeMap_elementObject. cbn [fst snd Value].
  rewrite mapOf_size. repeat split.
  - intros ->. reflexivity.
  - destruct kvs; [contradiction |]. cbn [length Nat.eqb].
    assert (Hid : elementIDFromValue (mapOf (p :: kvs)) = "")
      by now apply elementIDFromValue_empty_iff.
    now rewrite Hid.
  - discriminate.
  - intros Hid. destruct kvs as [|kv kvs]; [now contradiction Hid |].
    cbn [length Nat.eqb].
    now destruct (String.eqb_spec (elementIDFromValue (mapOf (kv :: kvs))) "").
Qed.

Lemma valueConvertToElementID_legacy_element :
  valueConvertToElementID Examples.legacyElement = ("E-1", None).
Proof.
  apply (proj2 (proj2 (valueConvertToElementID_outcomes Examples.legacyElement
           (Object [("value", Object [("ELEMENT", Str "E-1")]);
                    ("sessionId", Str "S")])
           [("ELEMENT", "E-1")] eq_refl eq_refl))).
  discriminate.
Defined.

(** *** Lists of element handles *)

Lemma storeElements_elementObjects (elems : list (list (string * string)))
  (saved : option error) :
  storeElements (List.map elementObject elems) [] saved =
    (List.map mapOf elems, [], saved).
Proof.
  revert saved. induction elems as [|kvs elems IH]; intros saved.
  - reflexivity.
  - cbn [List.map storeElements List.hd List.tl].
    rewrite storeMap_elementObject, IH. now destruct saved.
Qed.

Lemma storeSlice_elementObjects (elems : list (list (string * string))) :
  storeSlice nilSlice (Array (List.map elementObject elems)) =
    (mkSlice (List.map mapOf elems) [], None).
Proof.
  destruct elems as [|kvs elems]; [reflexivity |].
  unfold storeSlice. cbn [List.map items spare nilSlice app].
  change (elementObject kvs :: List.map elementObject elems)
    with (List.map elementObject (kvs :: elems)).
  now rewrite storeElements_elementObjects.
Qed.

(** The loop fills the slots in order when every element resolves. *)
Lemma fillIDs_all_resolved (reply elems : list (gmap string string))
  (filled todo : list string) :
  Forall (fun m => elementIDFromValue m <> "") elems ->
  length todo = length elems ->
  fillIDs reply elems (length filled) (filled ++ todo) =
    (filled ++ List.map elementIDFromValue elems, None).
Proof.
  revert filled todo.
  induction elems as [|m elems IH]; intros filled todo Hall Hlen.
  - destruct todo; [| discriminate]. reflexivity.
  - destruct todo as [|t todo]; [discriminate |].
    inversion Hall as [|? ? Hm Hrest]; subst. cbn [fillIDs List.map].
    destruct (String.eqb_spec (elementIDFromValue m) ""); [contradiction |].
    rewrite insert_app_r_alt by lia. rewrite Nat.sub_diag. cbn [insert list_insert].
    change (filled ++ elementIDFromValue m :: todo)
      with (filled ++ [elementIDFromValue m] ++ todo).
    rewrite app_assoc.
    replace (S (length filled)) with (length (filled ++ [elementIDFromValue m]))
      by (rewrite length_app; simpl; lia).
    rewrite IH; [| assumption | now injection Hlen].
    now rewrite <- app_assoc.
Qed.

(** The loop is left at the first element that does not resolve. *)
Lemma fillIDs_first_unresolved (reply before rest : list (gmap string string))
  (m : gmap string string) (i : nat) (IDs : list string) :
  Forall (fun m => elementIDFromValue m <> "") before ->
  elementIDFromValue m = "" ->
  fillIDs reply (before ++ m :: rest) i IDs = ([], Some (InvalidElements reply)).
Proof.
  revert i IDs. induction before as [|b before IH]; intros i IDs Hall Hm.
  - cbn [app fillIDs]. now rewrite Hm.
  - inversion Hall as [|? ? Hb Hrest]; subst. cbn [app fillIDs].
    destruct (String.eqb_spec (elementIDFromValue b) ""); [contradiction |].
    now apply IH.
Qed.

(** C6.  For an envelope whose [value] is an array of objects of strings:
    the empty array gives the error [errNoSuchElement] and no list; when
    every entry resolves, the identifiers are returned in order; the first
    entry that resolves to the empty string ends the decoding with the
    error "invalid element returned", whatever follows it. *)
Theorem valueConvertToElementIDs_outcomes (r : rawResponse) (j : value)
  (elems : list (list (string * string))) :
  parse r = Some j ->
  envelopeValue j = Some (Array (List.map elementObject elems)) ->
  (elems = [] -> valueConvertToElementIDs r = ([], Some errNoSuchElement)) /\
  (elems <> [] ->
   Forall (fun m => elementIDFromValue m <> "") (List.map mapOf elems) ->
   valueConvertToElementIDs r =
     (List.map elementIDFromValue (List.map mapOf elems), None)) /\
  (forall before m rest,
   List.map mapOf elems = before ++ m :: rest ->
   Forall (fun m => elementIDFromValue m <> "") before ->
   elementIDFromValue m = "" ->
   valueConvertToElementIDs r =
     ([], Some (InvalidElements (List.map mapOf elems))) /\
   InvalidElements (List.map mapOf elems) <> errNoSuchElement).
Proof.
  intros Hp He. unfold valueConvertToElementIDs.
  rewrite (Unmarshal_envelope _ _ _ _ _ Hp He). cbn [Value].
  rewrite storeSlice_elementObjects. cbn [fst snd Value items].
  split; [| split].
  - intros ->. reflexivity.
  - intros Hne Hall. destruct elems as [|kvs elems]; [contradiction |].
    cbn [List.map length Nat.eqb].
    change (mapOf kvs :: List.map mapOf elems) with (List.map mapOf (kvs :: elems)).
    apply (fillIDs_all_resolved _ _ [] _ Hall).
    cbn [length List.map]. f_equal. apply length_replicate.
  - intros before m rest Hsplit Hbefore Hm. split; [| discriminate].
    destruct elems as [|kvs elems]; [now destruct before |].
    cbn [List.map length Nat.eqb].
    change (mapOf kvs :: List.map mapOf elems) with (List.map mapOf (kvs :: elems)).
    rewrite Hsplit at 2. now apply fillIDs_first_unresolved.
Qed.

Lemma valueConvertToElementIDs_examples :
  valueConvertToElementIDs Examples.emptyList = ([], Some errNoSuchElement) /\
  valueConvertToElementIDs Examples.twoElements = (["E-1"; "E-2"], None).
Proof.
  split.
  - apply (proj1 (valueConvertToElementIDs_outcomes Examples.emptyList
             (Object [("value", Array [])]) [] eq_refl eq_refl)).
    reflexivity.
  - apply (proj1 (proj2 (valueConvertToElementIDs_outcomes Examples.twoElements
             (Object [("value",
                Array [Object [("ELEMENT", Str "E-1")];
                       Object [("element-6066-11e4-a52e-4f735466cecf", Str "E-2");
                               ("ELEMENT", Str "old")]])])
             [[("ELEMENT", "E-1")];
              [("element-6066-11e4-a52e-4f735466cecf", "E-2"); ("ELEMENT", "old")]]
             eq_refl eq_refl))).
    + discriminate.
    + repeat constructor; discriminate.
Defined.

End ExtractionProperties.

(** ** Base64 round trip *)

Section Base64Properties.
Import JSON Errors Decode Envelope Base64 Response.
#[local] Open Scope list_scope.
#[local] Open Scope N_scope.

Lemma lor_low (a z n : N) :
  z < 2 ^ n -> N.lor (a * 2 ^ n) z = a * 2 ^ n + z.
Proof.
  intros Hz.
  assert (Hland : N.land (a * 2 ^ n) z = 0).
  { apply N.bits_inj. intros k. rewrite N.land_spec, N.bits_0.
    destruct (N.lt_ge_cases k n) as [Hk | Hk].
    - now rewrite N.mul_pow2_bits_low.
    - rewrite <- (N.mod_small z (2 ^ n)) by exact Hz.
      rewrite N.mod_pow2_bits_high by exact Hk. apply andb_false_r. }
  rewrite <- N.lxor_lor by exact Hland.
  now rewrite <- N.add_nocarry_lxor by exact Hland.
Qed.

Lemma land_63 (a : N) : N.land a 0x3F = a mod 64.
Proof. change 0x3F with (N.ones 6). now rewrite N.land_ones. Qed.

Lemma byteOf_lt (c : ascii) : byteOf c < 256.
Proof. apply N_ascii_bounded. Qed.

Lemma byte_byteOf (c : ascii) (x : N) : x mod 256 = byteOf c -> byte x = c.
Proof. intros Hx. unfold byte. rewrite Hx. apply ascii_N_embedding. Qed.

#[local] Ltac arith :=
  zify; Z.to_euclidean_division_equations; lia.

Lemma lor3 (x y z : N) :
  y < 256 -> z < 256 ->
  N.lor (N.lor (N.shiftl x 16) (N.shiftl y 8)) z = x * 65536 + y * 256 + z.
Proof.
  intros Hy Hz. rewrite !N.shiftl_mul_pow2.
  rewrite (lor_low x (y * 2 ^ 8) 16) by (cbn; lia).
  replace (x * 2 ^ 16 + y * 2 ^ 8) with ((x * 256 + y) * 2 ^ 8) by (cbn; lia).
  rewrite lor_low by (cbn; lia). cbn; lia.
Qed.

Lemma lor4 (d0 d1 d2 d3 : N) :
  d1 < 64 -> d2 < 64 -> d3 < 64 ->
  N.lor (N.lor (N.lor (N.shiftl d0 18) (N.shiftl d1 12)) (N.shiftl d2 6)) d3 =
  d0 * 262144 + d1 * 4096 + d2 * 64 + d3.
Proof.
  intros H1 H2 H3. rewrite !N.shiftl_mul_pow2.
  rewrite (lor_low d0 (d1 * 2 ^ 12) 18) by (cbn; lia).
  replace (d0 * 2 ^ 18 + d1 * 2 ^ 12) with ((d0 * 64 + d1) * 2 ^ 12) by (cbn; lia).
  rewrite (lor_low _ (d2 * 2 ^ 6) 12) by (cbn; lia).
  replace ((d0 * 64 + d1) * 2 ^ 12 + d2 * 2 ^ 6)
    with ((d0 * 4096 + d1 * 64 + d2) * 2 ^ 6) by (cbn; lia).
  rewrite lor_low by (cbn; lia). cbn; lia.
Qed.

(** Three bytes survive the passage through four 6-bit values. *)
Lemma quantum_roundtrip3 (b0 b1 b2 : ascii) :
  let val := N.lor (N.lor (N.shiftl (byteOf b0) 16) (N.shiftl (byteOf b1) 8)) (byteOf b2) in
  quantumBytes
    [N.land (N.shiftr val 18) 0x3F; N.land (N.shiftr val 12) 0x3F;
     N.land (N.shiftr val 6) 0x3F; N.land val 0x3F] = [b0; b1; b2].
Proof.
  pose proof (byteOf_lt b0). pose proof (byteOf_lt b1). pose proof (byteOf_lt b2).
  cbv zeta. rewrite lor3 by assumption. unfold quantumBytes.
  cbn [nth length Nat.sub firstn]. rewrite !land_63, !N.shiftr_div_pow2.
  rewrite lor4 by (apply N.mod_lt; discriminate).
  change (2 ^ 18) with 262144. change (2 ^ 12) with 4096.
  change (2 ^ 6) with 64. change (2 ^ 16) with 65536. change (2 ^ 8) with 256.
  f_equal; [| f_equal; [| f_equal]]; apply byte_byteOf; arith.
Qed.

Lemma quantum_roundtrip2 (b0 b1 : ascii) :
  let val := N.lor (N.shiftl (byteOf b0) 16) (N.shiftl (byteOf b1) 8) in
  quantumBytes
    [N.land (N.shiftr val 18) 0x3F; N.land (N.shiftr val 12) 0x3F;
     N.land (N.shiftr val 6) 0x3F] = [b0; b1].
Proof.
  pose proof (byteOf_lt b0). pose proof (byteOf_lt b1).
  cbv zeta. rewrite <- (N.lor_0_r (N.lor _ _)), lor3 by lia.
  unfold quantumBytes.
  cbn [nth length Nat.sub firstn]. rewrite !land_63, !N.shiftr_div_pow2.
  rewrite lor4 by (try apply N.mod_lt; lia).
  change (2 ^ 18) with 262144. change (2 ^ 12) with 4096.
  change (2 ^ 6) with 64. change (2 ^ 16) with 65536. change (2 ^ 8) with 256.
  f_equal; [| f_equal]; apply byte_byteOf; arith.
Qed.

Lemma quantum_roundtrip1 (b0 : ascii) :
  let val := N.shiftl (byteOf b0) 16 in
  quantumBytes
    [N.land (N.shiftr val 18) 0x3F; N.land (N.shiftr val 12) 0x3F] = [b0].
Proof.
  pose proof (byteOf_lt b0).
  cbv zeta. rewrite N.shiftl_mul_pow2. unfold quantumBytes.
  cbn [nth length Nat.sub firstn]. rewrite !land_63, !N.shiftr_div_pow2.
  rewrite lor4 by (try apply N.mod_lt; lia).
  change (2 ^ 18) with 262144. change (2 ^ 12) with 4096.
  change (2 ^ 16) with 65536.
  f_equal; apply byte_byteOf; arith.
Qed.

(** The two tables are inverse to each other. *)
Lemma decodeMap_encode (v : N) : v < 64 -> decodeMap (encode v) = v.
Proof.
  intros Hv. rewrite <- (N2Nat.id v). 
  assert (Hn : (N.to_nat v < 64)%nat) by lia.
  revert Hn. generalize (N.to_nat v). intros n Hn.
  do 64 (destruct n as [|n]; [reflexivity |]). lia.
Qed.

Lemma decodeFrom_sextet (v : N) (rest : list ascii) (si : N) (dbuf : list N) :
  v < 64 ->
  decodeFrom (encode v :: rest) si dbuf =
    if (length (dbuf ++ [v]) =? 4)%nat
    then Base64.emit (quantumBytes (dbuf ++ [v])) (decodeFrom rest (si + 1) [])
    else decodeFrom rest (si + 1) (dbuf ++ [v]).
Proof.
  intros Hv. cbn [decodeFrom]. rewrite (decodeMap_encode v Hv).
  destruct (N.eqb_spec v 0xFF) as [-> | _]; [discriminate | reflexivity].
Qed.

Lemma decodeFrom_padding2 (d0 d1 si : N) :
  decodeFrom [padChar; padChar] si [d0; d1] = (quantumBytes [d0; d1], None).
Proof. reflexivity. Qed.

Lemma decodeFrom_padding1 (d0 d1 d2 si : N) :
  decodeFrom [padChar] si [d0; d1; d2] = (quantumBytes [d0; d1; d2], None).
Proof. reflexivity. Qed.

(** Induction over a byte sequence, three bytes at a time, as the encoder
    reads it. *)
Lemma bytes_ind3 (P : list ascii -> Prop) :
  P [] -> (forall b0, P [b0]) -> (forall b0 b1, P [b0; b1]) ->
  (forall b0 b1 b2 rest, P rest -> P (b0 :: b1 :: b2 :: rest)) ->
  forall b, P b.
Proof.
  intros H0 H1 H2 H3. fix IH 1.
  intros [|b0 [|b1 [|b2 rest]]]; [exact H0 | apply H1 | apply H2 |].
  apply H3, IH.
Qed.

(** Decoding undoes encoding. *)
Lemma decodeFrom_EncodeToString (b : list ascii) :
  forall si : N, decodeFrom (EncodeToString b) si [] = (b, None).
Proof.
  assert (Hsix : forall a, N.land a 0x3F < 64)
    by (intros a; rewrite land_63; apply N.mod_lt; discriminate).
  induction b as [| b0 | b0 b1 | b0 b1 b2 rest IH] using bytes_ind3; intros si.
  - reflexivity.
  - cbn [EncodeToString]. rewrite !decodeFrom_sextet by apply Hsix.
    cbn [app length Nat.eqb].
    now rewrite decodeFrom_padding2, quantum_roundtrip1.
  - cbn [EncodeToString]. rewrite !decodeFrom_sextet by apply Hsix.
    cbn [app length Nat.eqb].
    now rewrite decodeFrom_padding1, quantum_roundtrip2.
  - cbn [EncodeToString]. rewrite !decodeFrom_sextet by apply Hsix.
    cbn [app length Nat.eqb].
    now rewrite quantum_roundtrip3, IH.
Qed.

Lemma DecodeString_EncodeToString (b : list ascii) :
  DecodeString (string_of_list_ascii (EncodeToString b)) = (b, None).
Proof.
  unfold DecodeString. rewrite list_ascii_of_string_of_list_ascii.
  apply decodeFrom_EncodeToString.
Qed.

(** *** The envelope around a base64 text *)

Lemma scanString_plain (s rest : list ascii) :
  forallb plainChar s = true ->
  scanString (s ++ dquote :: rest) = Some (s, rest).
Proof.
  induction s as [|c s IH]; intros Hs.
  - reflexivity.
  - cbn [forallb] in Hs. apply andb_prop in Hs as [Hc Hs].
    unfold plainChar in Hc.
    apply andb_prop in Hc as [Hc H128]. apply andb_prop in Hc as [Hc H32].
    apply andb_prop in Hc as [Hq Hb].
    apply negb_true_iff in Hq, Hb, H32.
    cbn [app scanString]. rewrite Hq, Hb, H32, H128, (IH Hs). reflexivity.
Qed.

Lemma plainChar_encode (v : N) : plainChar (encode v) = true.
Proof.
  unfold encode. generalize (N.to_nat v). intros n.
  do 64 (destruct n as [|n]; [reflexivity |]). now destruct n.
Qed.

(** The encoder writes plain characters only. *)
Lemma plain_EncodeToString (b : list ascii) :
  forallb plainChar (EncodeToString b) = true.
Proof.
  induction b as [| b0 | b0 b1 | b0 b1 b2 rest IH] using bytes_ind3;
    cbn [EncodeToString forallb]; rewrite ?plainChar_encode; try reflexivity.
  exact IH.
Qed.

(** The envelope around a plain text parses to an object with the one
    member [value], a string. *)
Lemma parse_stringEnvelope (s : list ascii) :
  forallb plainChar s = true ->
  parse (stringEnvelope s) = Some (Object [("value", Str (str s))]).
Proof.
  intros Hs. unfold parse, scan, stringEnvelope.
  assert (Hfuel : exists k,
            (2 * length (text "{'value': '" ++ s ++ text "'}") + 1 = S (S (S k)))%nat).
  { exists (2 * length (text "{'value': '" ++ s ++ text "'}") - 2)%nat.
    rewrite length_app. cbn [text length List.map list_ascii_of_string]. lia. }
  destruct Hfuel as [k ->].
  let t := eval vm_compute in (text "{'value': '") in
    change (text "{'value': '") with t.
  let t := eval vm_compute in (text "'}") in change (text "'}") with t.
  cbn [app]. lazy -[scanString app str].
  match goal with
  | |- context [scanString (?a :: ?b :: ?c :: ?d :: ?e :: ?q :: ?rest)] =>
      change (scanString (a :: b :: c :: d :: e :: q :: rest))
        with (scanString ([a; b; c; d; e] ++ dquote :: rest))
  end.
  rewrite scanString_plain by reflexivity.
  lazy -[scanString app str].
  rewrite (scanString_plain s) by exact Hs.
  lazy -[scanString app str]. reflexivity.
Qed.

(** C8.  For every byte sequence [b], the envelope whose [value] is the
    standard base64 encoding of [b] decodes, through
    [valueDecodeAsBase64], to exactly [b], with a nil error. *)
Theorem valueDecodeAsBase64_roundtrip (b : list ascii) :
  valueDecodeAsBase64 (stringEnvelope (EncodeToString b)) = (Some b, None).
Proof.
  unfold valueDecodeAsBase64, valueConvertToString.
  rewrite (Unmarshal_envelope _ _ _ (Str (str (EncodeToString b))) _
             (parse_stringEnvelope _ (plain_EncodeToString b)) eq_refl).
  cbn [storeString fst snd Value].
  unfold str. now rewrite DecodeString_EncodeToString.
Qed.

(** The empty sequence and the five bytes of [hello]. *)
Lemma valueDecodeAsBase64_examples :
  valueDecodeAsBase64 (stringEnvelope (EncodeToString [])) = (Some [], None) /\
  EncodeToString Examples.helloBytes = list_ascii_of_string "aGVsbG8=" /\
  valueDecodeAsBase64 (stringEnvelope (EncodeToString Examples.helloBytes)) =
    (Some Examples.helloBytes, None).
Proof.
  split; [apply (valueDecodeAsBase64_roundtrip []) |].
  split; [reflexivity |].
  apply (valueDecodeAsBase64_roundtrip Examples.helloBytes).
Defined.

End Base64Properties.
